(* ===== verification/_CoqProject ===== *)
-Q . S2P
Prelude.v
PyValue.v
PyStmt.v
NioProperties.v
NioBlock.v
Fluentmail.v
MailGun.v
Replay.v
Connection.v
Contract.v
Outputs.v
Runs.v
Resumption.v
Pool.v
ProgEquiv.v
Scenarios.v
