(* ===== verification/Prelude.v ===== *)
(** * A verification development of the nio Mailgun block

    The repository is one nio block, [MailGun] in [src/mailgun_block.py].
    For every inbound signal, [process_signal] (lines 32-66) resolves its
    templated properties against the signal (lines 33-50, three recipient
    loops included), then, inside [try], opens a fluentmail [Mailgun]
    backend in a [with] statement, builds and sends a fluentmail
    [Message], and notifies [{error: 0, message: "Password reset email
    sent."}]; its [except Exception as e] notifies
    [{error: 1, message: e.args[0]}].  The block calls three collaborators
    that are not under [src/]: the nio property evaluator, the
    [EnrichSignals] mixin with [notify_signals], and fluentmail.

    ** Files, in dependency order

    - [Prelude] (this file): the outcome of a Python computation (value or
      raised exception), the exception-and-state monad [PyM] with the
      notation [let* x := c in k] in [pym_scope], its laws, the hint
      databases [pym] and [pym_rw], the tactic [pym_simp], and [countb].
    - [PyValue]: Python values, ordered dicts ([dict_get], [dict_set],
      [dict_update], key uniqueness [dict_wf]), exception objects with
      their [args], [e.args[0]] ([args0]), nio [Signal]s.
    - [PyStmt]: [try/except] ([py_try], [catches_Exception]), the [with]
      statement as PEP 343 expands it ([py_with]), and
      [xs = []; for r in rs: xs.append(f(r))] ([for_append]) with its
      functional reference [collect].
    - [NioProperties]: the property holders [MailgunCreds], [Recipient],
      [Emails], [Message] and their defaults (lines 7-23); the evaluator
      interface [Resolver]; a concrete evaluator [literal_eval].
    - [NioBlock]: [EnrichSignals.get_output_signal] (from the spec), where
      a downstream block reads the result ([payload_get]), and the host
      interface [Host] ([notify_signals]).
    - [Fluentmail]: the message record [FluentMessage] and the backend
      interface [Backend] (constructor, [__enter__], [send], [__exit__]).
    - [MailGun]: the block: [event]s and [trace]s of effects, the
      configuration [MailGun] (lines 25-30), [process_signal] and its
      parts [resolve_recipients], [send_and_report], [send_body],
      [report_error]; the functional reference [resolve_fields] of lines
      33-50; the relations [body_path], [handler_path], [try_path] listing
      every way the [try] statement can run; [faithful] traces.
    - [Replay]: the exactness of [try_path]: a backend and a host that
      replay a path's recorded answers make [send_and_report] run that
      path (C17).
    - [Connection]: the lifecycle of the Mailgun connection as a state
      machine ([conn_step], executable [conn_next]/[conn_run]).
    - [Contract]: the contract of spec sections 3-4 (a [Pending -> Sent |
      Failed] machine with one result event), the observation [observe]
      of a run, and the backend contract [BackendContract].
    - [Outputs]: the notified signals as a downstream block reads them:
      incoming attributes kept in the merge modes (C18).
    - [Runs]: bounds on a run's effects (C19), runs determined by the
      resolved values (C20), failures of [__exit__] after a send (C21)
      and of the backend constructor (C22), and a send with an empty [To]
      list (C26).
    - [Resumption]: the handler as a resumption ([prog]: a result, or a
      request to a collaborator with a continuation for each answer), its
      combinators ([bindP], [tryP], [withP], [forP]), the sequential
      interpreter [run_prog], [process_signal_prog] (lines 32-66 again)
      and the lemma that running it is [process_signal]; the bound of six
      calls ([calls_within]); the paths of a program and the oracle
      collaborators that realise them.  It is the means by which [Pool]
      states the per-run theorems of concurrent invocations.
    - [Pool]: concurrent invocations (spec section 5): one thread per
      signal, interleaved at every collaborator call ([pool_next],
      schedules [pool_run]), the calls of each thread ([proj]); C23, C24
      and C27-C29.
    - [ProgEquiv]: the equivalence [peq] of resumptions (same calls,
      equivalent continuations) with [Proper] binding combinators, used
      to show the handler is a call-free resolution followed by the
      [try]; a failing resolution makes no call under any schedule
      (C25).
    - [Scenarios]: the spec's test configuration, stub collaborators, and
      one concrete instance of every theorem with hypotheses.

    ** How the model corresponds to the code

    A run of [process_signal blk sig] is a state transformer over the
    trace of effects: each call to a collaborator appends an [event]
    recording its arguments and its answer, and the collaborators'
    answers are arbitrary functions of the history ([Resolver], [Backend],
    [Host] are classes, quantified over in every theorem).  Python
    exceptions are values of [exn]; the code's statements are the
    combinators of [PyStmt] composed in the order of the source.  Nothing
    loops except the recipient loops, which recurse on the configured
    lists: no fuel is needed and every run terminates.  For concurrency
    the same handler is a resumption that yields at each of its (at most
    six) collaborator calls, and a pool of them is stepped one call at a
    time along a schedule; no fuel is needed there either.

    ** What is proved

    - Behaviour on every path ([MailGun]): success (C1), a failing send
      reported as error 1 (C2), the shape of every run
      ([process_signal_path], [try_path]), the message sent is the
      resolved one (C15), recipient order and first error (C10, C11), two
      runs send twice (C13), and every path of [try_path] is a run for
      some collaborators (C17), so the path relations are exactly the
      behaviours of lines 52-66.
    - Safety ([Connection]): every run leaves the connection released or
      never opened (C3) and sends at most once, exiting once per send
      (C12); every notified signal carries a well-formed result (C9).
    - Invariant and refinement: with a delivering host, exactly one result
      or an uncaught exception (C5); under the backend contract, the run
      produces exactly the contract's event, [Sent] exactly when
      delivered (C6).
    - Divergences from the spec: resolution errors escape unreported
      (C4); an [Exception] without [args] makes the handler raise
      [IndexError] (C7); a failing success notification yields a second,
      error notification (C8); a suppressing [__exit__] reports success
      for an unsent mail (C14); non-[Exception] errors escape (C16); a
      failing [__exit__] after a send is reported as a failed send (C21);
      the reported message is [e.args[0]] whatever its type (C2), not
      always the description string of spec section 3.
    - Outputs and bounds: notified signals keep the incoming attributes
      in the merge modes (C18); a run makes at most six collaborator calls
      and two notifications (C19); with [exclude_existing], runs on
      signals that resolve alike are identical (C20).
    - Concurrency ([Resumption], [Pool], [ProgEquiv]): under every
      schedule and whatever the collaborators answer, each finished
      invocation made the calls of a sequential run
      ([pool_finished_run]), through which the per-run theorems carry
      over: every schedule of [n] invocations has at most [6 n] steps
      (C23); every finished invocation of a concurrent execution
      released its connection and sent at most once (C24), and with a delivering host notified one result or let an
      uncaught exception escape (C27, the invariant of C5 per
      invocation); with the backend contract as well, each finished
      invocation produces exactly the contract's event (C28, the
      refinement of C6 per invocation); at every point of every
      execution each invocation has sent at most once, notified at most
      twice and made at most six calls (C29).
      An invocation whose resolution raises ends with that exception and
      makes no call under every schedule (C25).
    - Boundary: with an empty [To] list (the default) the block still
      sends a message without recipient (C26).

    ** Not modelled

    Every line of [src/mailgun_block.py] that has behaviour is modelled
    (lines 7-66; lines 1-5 are imports).  What remains outside is code
    that is not in this repository, and the spec fixes none of its
    behaviour beyond what the interfaces state:
    - HTTP transport and authentication of the Mailgun API: abstracted
      by [Backend], whose answers are arbitrary functions of the history,
      with the contract [BackendContract] where a theorem needs one.
    - The nio evaluator's expression language beyond [{{ $attr }}] and
      the conversion a [StringProperty] applies to its value: abstracted
      by [Resolver], whose [resolve_str] may return any value or raise;
      nio's own conversion is not given by the spec, so no concrete
      [str()] is modelled.
    - [VersionProperty] and the UI metadata of properties (titles,
      order): they describe the block to the nio UI and have no
      behaviour.
    - The nio thread pool itself (its size, and preemption inside the
      pure resolution code): the handler shares no state with other
      invocations and its resolution makes no call
      ([process_signal_prog_split]), so only the order of collaborator
      calls is observable, and that is what [Pool] interleaves; the
      scheduler is the host's, so [Pool] quantifies over every schedule
      rather than modelling one.
    - [EnrichSignals] with [copy=False]: the block always calls
      [get_output_signal] with the default copy. *)

From Stdlib Require Import List.
Import ListNotations.

(** ** Outcomes and the exception-and-state monad *)

(** A Python computation either returns a value or raises an exception. *)
Inductive outcome (E A : Type) : Type :=
| Normal (a : A)
| Raise (e : E).
Arguments Normal {E A} a.
Arguments Raise {E A} e.

(** A computation over a state [S] that may raise an [E]: the state
    reached when an exception is raised is kept, since effects performed
    before a [raise] are not undone. *)
Definition PyM (E S A : Type) : Type := S -> outcome E A * S.

Section Monad.
Context {E S : Type}.

Definition pret {A} (a : A) : PyM E S A := fun s => (Normal a, s).

Definition praise {A} (e : E) : PyM E S A := fun s => (Raise e, s).

Definition pbind {A B} (m : PyM E S A) (f : A -> PyM E S B) : PyM E S B :=
  fun s =>
    match m s with
    | (Normal a, s') => f a s'
    | (Raise e, s') => (Raise e, s')
    end.

(** Lift an already evaluated outcome (a pure call that may raise). *)
Definition plift {A} (o : outcome E A) : PyM E S A :=
  match o with
  | Normal a => pret a
  | Raise e => praise e
  end.

Definition pmodify (f : S -> S) : PyM E S unit := fun s => (Normal tt, f s).

Definition pget : PyM E S S := fun s => (Normal s, s).
End Monad.

Declare Scope pym_scope.
Delimit Scope pym_scope with pym.
Notation "'let*' x ':=' c 'in' k" := (pbind c (fun x => k))
  (at level 10, x name, c at level 100, k at level 200) : pym_scope.
Open Scope pym_scope.

(** ** Laws *)

Section Laws.
Context {E S : Type}.

Lemma pbind_ret_l {A B} (a : A) (f : A -> PyM E S B) s :
  pbind (pret a) f s = f a s.
Proof. reflexivity. Qed.

Lemma pbind_raise {A B} (e : E) (f : A -> PyM E S B) s :
  pbind (praise e) f s = (Raise e, s).
Proof. reflexivity. Qed.

(** Running a bind whose first part is known. *)
Lemma pbind_normal {A B} (m : PyM E S A) (f : A -> PyM E S B) s a s' :
  m s = (Normal a, s') -> pbind m f s = f a s'.
Proof. intros H. unfold pbind. rewrite H. reflexivity. Qed.

Lemma pbind_raised {A B} (m : PyM E S A) (f : A -> PyM E S B) s e s' :
  m s = (Raise e, s') -> pbind m f s = (Raise e, s').
Proof. intros H. unfold pbind. rewrite H. reflexivity. Qed.

End Laws.

Create HintDb pym discriminated.
Create Rewrite HintDb pym_rw.
#[export] Hint Rewrite @pbind_ret_l @pbind_raise : pym_rw.

(** Unfold the monad operations of a goal and reduce. *)
Ltac pym_simp := cbn [pbind pret praise plift pmodify pget] in *.

(** ** Lists *)

(** The number of elements of [l] that satisfy [p]. *)
Definition countb {A} (p : A -> bool) (l : list A) : nat := length (filter p l).

Lemma countb_app {A} (p : A -> bool) l1 l2 :
  countb p (l1 ++ l2) = countb p l1 + countb p l2.
Proof. unfold countb. rewrite filter_app, length_app. reflexivity. Qed.

Lemma countb_cons {A} (p : A -> bool) x l :
  countb p (x :: l) = (if p x then 1 else 0) + countb p l.
Proof. unfold countb. simpl. destruct (p x); reflexivity. Qed.

Lemma countb_nil {A} (p : A -> bool) : countb p [] = 0.
Proof. reflexivity. Qed.

#[export] Hint Rewrite @countb_app @countb_cons @countb_nil : pym_rw.
