(* ===== verification/PyValue.v ===== *)
(** Python values, dictionaries, exception objects and nio signals, as the
    block's handler sees them.  A Python [dict] keeps insertion order and
    unique keys, so it is an association list with an update that
    overwrites in place and appends new keys at the end. *)

From Stdlib Require Import ZArith String List.
From stdpp Require Import base.
From S2P Require Import Prelude.
Import ListNotations.


#[local] Set Warnings "-register-all".

(** ** Values *)

(** The values that flow through the handler: property results,
    exception arguments, and signal attributes. *)
Inductive pyval : Type :=
| PyNone
| PyInt (z : Z)
| PyBool (b : bool)
| PyStr (s : string)
| PyList (l : list pyval)
| PyDict (d : list (string * pyval)).

Fixpoint pyval_eq_dec (x y : pyval) {struct x} : {x = y} + {x <> y}.
Proof.
  refine (match x, y with
  | PyNone, PyNone => left eq_refl
  | PyInt a, PyInt b =>
      match Z.eq_dec a b with left _ => left _ | right _ => right _ end
  | PyBool a, PyBool b =>
      match bool_dec a b with left _ => left _ | right _ => right _ end
  | PyStr a, PyStr b =>
      match string_dec a b with left _ => left _ | right _ => right _ end
  | PyList a, PyList b =>
      match List.list_eq_dec pyval_eq_dec a b with
      | left _ => left _ | right _ => right _ end
  | PyDict a, PyDict b =>
      match List.list_eq_dec
              (fun p q : string * pyval =>
                 match p, q with
                 | (k1, v1), (k2, v2) =>
                     match string_dec k1 k2, pyval_eq_dec v1 v2 with
                     | left _, left _ => left _
                     | _, _ => right _
                     end
                 end) a b with
      | left _ => left _ | right _ => right _ end
  | _, _ => right _
  end); congruence.
Defined.

#[export] Instance pyval_eq_decision : EqDecision pyval := pyval_eq_dec.

(** ** Dictionaries *)

(** A [dict] with string keys, in insertion order. *)
Definition dict := list (string * pyval).

(** [d.get(k)]. *)
Fixpoint dict_get (k : string) (d : dict) : option pyval :=
  match d with
  | [] => None
  | (k', v) :: d' => if String.eqb k k' then Some v else dict_get k d'
  end.

(** [d[k] = v]: overwrite the value in place when [k] is present, append
    [(k, v)] otherwise. *)
Fixpoint dict_set (k : string) (v : pyval) (d : dict) : dict :=
  match d with
  | [] => [(k, v)]
  | (k', v') :: d' =>
      if String.eqb k k' then (k', v) :: d' else (k', v') :: dict_set k v d'
  end.

(** [d.update(e)]: the entries of [e], in order, written into [d]. *)
Definition dict_update (d e : dict) : dict :=
  fold_left (fun acc kv => dict_set (fst kv) (snd kv) acc) e d.

(** The keys of a Python dict are distinct. *)
Definition dict_wf (d : dict) : Prop := List.NoDup (map fst d).

(** ** Exceptions *)

(** An exception object: its class name, whether the class derives from
    [Exception] (what [except Exception] catches; [KeyboardInterrupt] and
    [SystemExit] do not), and its [args] tuple. *)
Record exn := mk_exn {
  exc_type : string;
  exc_is_exception : bool;
  exc_args : list pyval
}.

(** [raise Cls(msg)] for a class derived from [Exception]. *)
Definition exception (cls msg : string) : exn := mk_exn cls true [PyStr msg].

(** The builtin error of indexing a tuple out of range. *)
Definition IndexError_tuple : exn := exception "IndexError"%string "tuple index out of range"%string.

(** [e.args[0]]. *)
Definition args0 (e : exn) : outcome exn pyval :=
  match exc_args e with
  | v :: _ => Normal v
  | [] => Raise IndexError_tuple
  end.

(** ** Signals *)

(** A nio [Signal] is an object whose attributes are the entries of a
    dict. *)
Record signal := mk_signal { sig_attrs : dict }.

(** [Signal(d)]: the attributes of [d], in order. *)
Definition Signal (d : dict) : signal := mk_signal (dict_update [] d).

(** [getattr(signal, k, None)]. *)
Definition sig_get (k : string) (s : signal) : option pyval := dict_get k (sig_attrs s).

(** ** Dictionary lemmas *)

Lemma dict_get_set_eq k v (d : dict) : dict_get k (dict_set k v d) = Some v.
Proof.
  induction d as [|[k' v'] d IH]; simpl.
  - now rewrite String.eqb_refl.
  - destruct (String.eqb_spec k k') as [->|Hne]; simpl.
    + now rewrite String.eqb_refl.
    + apply String.eqb_neq in Hne. now rewrite Hne.
Qed.

Lemma dict_get_set_ne k k' v (d : dict) :
  k <> k' -> dict_get k' (dict_set k v d) = dict_get k' d.
Proof.
  intros Hne. induction d as [|[j w] d IH]; simpl.
  - apply not_eq_sym, String.eqb_neq in Hne. now rewrite Hne.
  - destruct (String.eqb_spec k j) as [->|Hkj]; simpl.
    + apply not_eq_sym, String.eqb_neq in Hne. now rewrite Hne.
    + now rewrite IH.
Qed.

(** The last write of a key in [e] wins; keys of [d] absent from [e] keep
    their value. *)
Lemma dict_get_update k (d e : dict) :
  dict_get k (dict_update d e) =
  match dict_get k (rev e) with Some v => Some v | None => dict_get k d end.
Proof.
  unfold dict_update. revert d. induction e as [|[j w] e IH]; intros d; simpl; [reflexivity|].
  rewrite IH.
  assert (Hrev : forall l, dict_get k (l ++ [(j, w)]) =
                      match dict_get k l with Some v => Some v
                      | None => if String.eqb k j then Some w else None end).
  { induction l as [|[a b] l IHl]; simpl; [reflexivity|].
    destruct (String.eqb k a); [reflexivity | exact IHl]. }
  rewrite Hrev. destruct (dict_get k (rev e)); [reflexivity|].
  destruct (String.eqb_spec k j) as [->|Hne].
  - now rewrite dict_get_set_eq.
  - apply dict_get_set_ne, not_eq_sym, Hne.
Qed.

