(* ===== verification/PyStmt.v ===== *)
(** The Python statements the handler is written with, as combinators of
    [PyM exn S]: [try ... except C as e], the [with] statement as the
    Python reference (section 8.5, PEP 343) expands it, and the loop
    [xs = []; for r in rs: xs.append(f(r))], with the lemmas that relate
    the loop to its functional reference [collect]; [MailGun] composes
    them. *)

From Stdlib Require Import List.
From S2P Require Import Prelude PyValue.
Import ListNotations.

Section Stmt.
Context {S : Type}.
Local Abbreviation M := (PyM exn S).

(** [try: body  except C as e: handler(e)]: an exception of a class
    that [catches] selects runs the handler in the state the body left;
    any other exception propagates unchanged. *)
Definition py_try {A} (catches : exn -> bool) (body : M A)
           (handler : exn -> M A) : M A :=
  fun s =>
    match body s with
    | (Normal a, s') => (Normal a, s')
    | (Raise e, s') => if catches e then handler e s' else (Raise e, s')
    end.

(** [except Exception] catches exactly the classes derived from
    [Exception]. *)
Definition catches_Exception (e : exn) : bool := exc_is_exception e.

(** [with mgr as v: body(v)]:
<<
    manager = mgr; value = manager.__enter__()
    try: body(value)
    except: if not manager.__exit__(type, value, tb): raise
    else: manager.__exit__(None, None, None)
>>
    [__exit__] receives the exception of the body, if any, and returns
    whether to suppress it; an exception it raises replaces the body's. *)
Definition py_with {Mgr V} (mgr : M Mgr) (enter : Mgr -> M V)
           (exit : Mgr -> option exn -> M bool) (body : V -> M unit) : M unit :=
  let* m := mgr in
  let* v := enter m in
  fun s =>
    match body v s with
    | (Normal _, s1) => pbind (exit m None) (fun _ => pret tt) s1
    | (Raise e, s1) =>
        match exit m (Some e) s1 with
        | (Normal true, s2) => (Normal tt, s2)
        | (Normal false, s2) => (Raise e, s2)
        | (Raise e2, s2) => (Raise e2, s2)
        end
    end.

(** [xs = acc; for r in rs: xs.append(f(r))]; an exception raised by
    [f] leaves the loop at once. *)
Fixpoint for_append {R B} (f : R -> M B) (rs : list R) (acc : list B) : M (list B) :=
  match rs with
  | [] => pret acc
  | r :: rs' => let* v := f r in for_append f rs' (acc ++ [v])
  end.
End Stmt.

(** The functional reference of a loop of calls that raise but have no
    other effect: the results in order, or the first exception. *)
Fixpoint collect {R B} (g : R -> outcome exn B) (rs : list R) : outcome exn (list B) :=
  match rs with
  | [] => Normal []
  | r :: rs' =>
      match g r with
      | Raise e => Raise e
      | Normal v =>
          match collect g rs' with
          | Raise e => Raise e
          | Normal vs => Normal (v :: vs)
          end
      end
  end.

(** ** Loops *)

(** The loop with its list mutated in place computes the functional
    reference, prefixed by the list it started from, and changes no
    state. *)
Lemma for_append_collect {S R B} (g : R -> outcome exn B) (rs : list R)
      (acc : list B) (s : S) :
  for_append (fun r => plift (g r)) rs acc s =
  (match collect g rs with
   | Normal vs => Normal (acc ++ vs)
   | Raise e => Raise e
   end, s).
Proof.
  revert acc. induction rs as [|r rs IH]; intros acc; simpl.
  - now rewrite app_nil_r.
  - unfold pbind, plift. destruct (g r) as [v|e]; simpl; [|reflexivity].
    rewrite IH. destruct (collect g rs); [|reflexivity].
    now rewrite <- app_assoc.
Qed.

(** When every call returns, the loop returns every result, in the
    configured order. *)
Lemma collect_all_normal {R B} (g : R -> outcome exn B) (h : R -> B) rs :
  (forall r, In r rs -> g r = Normal (h r)) -> collect g rs = Normal (map h rs).
Proof.
  induction rs as [|r rs IH]; intros Hg; simpl; [reflexivity|].
  rewrite Hg by now left. rewrite IH; [reflexivity|].
  intros r' Hr'. apply Hg. now right.
Qed.

(** The loop raises the exception of the first call that raises. *)
Lemma collect_first_raise {R B} (g : R -> outcome exn B) (h : R -> B) pre r post e :
  (forall r', In r' pre -> g r' = Normal (h r')) -> g r = Raise e ->
  collect g (pre ++ r :: post) = Raise e.
Proof.
  induction pre as [|r0 pre IH]; intros Hpre Hr; simpl.
  - now rewrite Hr.
  - rewrite Hpre by now left. rewrite IH; [reflexivity| |exact Hr].
    intros r' Hr'. apply Hpre. now right.
Qed.

(** [collect] succeeds exactly when every call does. *)
Lemma collect_normal_inv {R B} (g : R -> outcome exn B) rs vs :
  collect g rs = Normal vs -> Forall2 (fun r v => g r = Normal v) rs vs.
Proof.
  revert vs. induction rs as [|r rs IH]; intros vs H; simpl in H.
  - injection H as <-. constructor.
  - destruct (g r) as [v|e] eqn:Hg; [|discriminate].
    destruct (collect g rs) as [vs'|e] eqn:Hc; [|discriminate].
    injection H as <-. constructor; auto.
Qed.
