(* ===== verification/NioProperties.v ===== *)
(** The block's configuration: the nio property holders of
    [src/mailgun_block.py] with their defaults, and the nio template
    evaluator they are read with.  The evaluator is part of the nio
    framework, not of this repository: the block only calls it, so it is
    the interface [Resolver], and every theorem of [MailGun] holds for
    every instance.  [literal_resolver] is one instance, following the
    nio expression syntax of the spec ([{{ $attr }}] reads a signal
    attribute, anything else is a literal), used by the concrete runs. *)

From Stdlib Require Import String List Arith Lia.
From S2P Require Import Prelude PyValue.
Import ListNotations.
Local Open Scope string_scope.

(** A property as configured: the raw text of a nio expression. *)
Definition template := string.

(** ** Property holders *)

(** [class MailgunCreds(PropertyHolder)]: two plain [Property]s. *)
Record MailgunCreds := mk_MailgunCreds {
  api_domain : template;
  api_key : template
}.

Definition MailgunCreds_default : MailgunCreds :=
  mk_MailgunCreds "[[MAILGUN_DOMAIN]]" "[[MAILGUN_API_KEY]]".

(** [class Recipient(PropertyHolder)]: one [StringProperty]. *)
Record Recipient := mk_Recipient { recip : template }.

Definition Recipient_default : Recipient := mk_Recipient "{{ $email }}".

(** [class Emails(PropertyHolder)]: the sender and three [ListProperty]s
    of [Recipient], empty by default. *)
Record Emails := mk_Emails {
  sender : template;
  to_recipients : list Recipient;
  cc_recipients : list Recipient;
  bcc_recipients : list Recipient
}.

Definition Emails_default : Emails := mk_Emails "<no-reply@mydomain.com>" [] [] [].

(** [class Message(PropertyHolder)]: three [StringProperty]s. *)
Record Message := mk_Message {
  subject : template;
  text : template;
  html : template
}.

Definition Message_default : Message :=
  mk_Message "Subject" "Message text" "<b>Message HTML</b>".

(** ** The template evaluator *)

(** [prop(signal)] for a [Property] ([resolve]) and for a
    [StringProperty] ([resolve_str]): evaluating the expression against
    the signal returns a value or raises. *)
Class Resolver := {
  resolve : template -> signal -> outcome exn pyval;
  resolve_str : template -> signal -> outcome exn pyval
}.

(** ** A concrete evaluator *)

(** The attribute name of an expression [{{ $name }}], if the template
    is one. *)
Definition attr_ref (t : template) : option string :=
  let n := String.length t in
  if ((7 <=? n)%nat && String.prefix "{{ $" t
     && String.eqb (substring (n - 3) 3 t) " }}")%bool
  then Some (substring 4 (n - 7) t)
  else None.

(** [{{ $name }}] reads the attribute [name] of the signal and raises
    when it is missing; any other template evaluates to itself. *)
Definition literal_eval (t : template) (s : signal) : outcome exn pyval :=
  match attr_ref t with
  | Some a =>
      match sig_get a s with
      | Some v => Normal v
      | None => Raise (exception "AttributeError" a)
      end
  | None => Normal (PyStr t)
  end.

#[export] Instance literal_resolver : Resolver :=
  {| resolve := literal_eval; resolve_str := literal_eval |}.
