(* ===== verification/NioBlock.v ===== *)
(** What the block uses of the nio framework besides properties: the
    [EnrichSignals] mixin's [get_output_signal], which builds the output
    signal from the result dict and the incoming signal, and the block's
    [notify_signals], which hands signals to the downstream blocks.
    Neither is under [src/]: [get_output_signal] follows the spec
    (section 6: the result merged with the incoming signal's fields as
    configured), and [notify_signals] is the interface [Host], an
    arbitrary function of the history of effects [H] that may raise. *)

From Stdlib Require Import String List.
From S2P Require Import Prelude PyValue.
Import ListNotations.

(** ** The [EnrichSignals] mixin *)

(** The mixin's properties: whether to drop the incoming signal's
    attributes, and the attribute to nest the result under ([""] for
    none). *)
Record EnrichProperties := mk_EnrichProperties {
  exclude_existing : bool;
  enrich_field : string
}.

Definition EnrichProperties_default : EnrichProperties :=
  mk_EnrichProperties true ""%string.

(** [get_output_signal(data, incoming)]: the result alone, the incoming
    signal updated with the result, or the incoming signal with the
    result nested under [enrich_field]. *)
Definition get_output_signal (en : EnrichProperties) (data : dict)
           (incoming : signal) : signal :=
  if exclude_existing en then Signal data
  else if String.eqb (enrich_field en) ""%string then
    mk_signal (dict_update (sig_attrs incoming) data)
  else mk_signal (dict_set (enrich_field en) (PyDict data) (sig_attrs incoming)).

(** Where a downstream block finds the result's field [k] in an output
    signal built with [en]. *)
Definition payload_get (en : EnrichProperties) (k : string) (out : signal) : option pyval :=
  if (exclude_existing en || String.eqb (enrich_field en) ""%string)%bool then sig_get k out
  else
    match sig_get (enrich_field en) out with
    | Some (PyDict d) => dict_get k d
    | _ => None
    end.

(** ** Notification *)

(** [self.notify_signals(signals)]: delivering a signal downstream may
    raise. *)
Class Host (H : Type) := {
  notify_signals : signal -> H -> option exn
}.

(** ** Lemmas *)

Lemma dict_get_app_r k (l : dict) k' v :
  dict_get k (l ++ [(k', v)]) =
  match dict_get k l with
  | Some w => Some w
  | None => if String.eqb k k' then Some v else None
  end.
Proof.
  induction l as [|[a b] l IH]; simpl; [reflexivity|].
  destruct (String.eqb k a); [reflexivity | exact IH].
Qed.

(** In a dict with distinct keys, reading from the front or the back
    finds the same entry. *)
Lemma dict_get_rev k (e : dict) : dict_wf e -> dict_get k (rev e) = dict_get k e.
Proof.
  unfold dict_wf. induction e as [|[j w] e IH]; intros Hnd; simpl; [reflexivity|].
  inversion Hnd as [|x l Hnin Hnd' Heq]; subst.
  rewrite dict_get_app_r, IH by exact Hnd'.
  destruct (String.eqb_spec k j) as [->|Hne].
  - assert (Hnone : dict_get j e = None).
    { clear -Hnin. induction e as [|[a b] e IHe]; simpl; [reflexivity|].
      destruct (String.eqb_spec j a) as [->|Hja].
      + exfalso. apply Hnin. now left.
      + apply IHe. intros Hin. apply Hnin. now right. }
    now rewrite Hnone.
  - now destruct (dict_get k e).
Qed.

(** Whatever the mixin's configuration, a downstream block reads back
    every field of the result. *)
Lemma payload_get_output (en : EnrichProperties) (data : dict) (incoming : signal) k v :
  dict_wf data -> dict_get k data = Some v ->
  payload_get en k (get_output_signal en data incoming) = Some v.
Proof.
  intros Hwf Hk. unfold payload_get, get_output_signal, sig_get.
  destruct (exclude_existing en); simpl.
  - rewrite dict_get_update, dict_get_rev, Hk by exact Hwf. reflexivity.
  - destruct (String.eqb (enrich_field en) ""%string) eqn:Hf; simpl.
    + rewrite dict_get_update, dict_get_rev, Hk by exact Hwf. reflexivity.
    + now rewrite dict_get_set_eq.
Qed.
