(* ===== verification/Fluentmail.v ===== *)
(** What the block uses of the fluentmail library: the [Message] built by
    [FluentMessage(subject, text, html=..., from_address=..., to=...,
    cc=..., bcc=...)] and the [Mailgun] backend used as a context manager.
    The library is not under [src/]; following the spec (section 6), the
    backend is a black box that may raise at each call, so it is the
    interface [Backend], each method an arbitrary function of the history
    of effects [H].  A theorem proved for every instance holds whatever
    the HTTP API answers. *)

From Stdlib Require Import String List.
From S2P Require Import Prelude PyValue.
Import ListNotations.

(** The fields of a fluentmail [Message], as the block passes them. *)
Record FluentMessage := mk_FluentMessage {
  fm_subject : pyval;
  fm_text : pyval;
  fm_html : pyval;
  fm_from_address : pyval;
  fm_to : list pyval;
  fm_cc : list pyval;
  fm_bcc : list pyval
}.

(** The [Mailgun] backend: its constructor [Mailgun(domain, api_key)],
    [__enter__], [Message.send(backend)] and [__exit__], which receives
    the exception leaving the [with] body, if any, and returns whether to
    suppress it.  [None] means the call returned; [Some e] that it raised
    [e]. *)
Class Backend (H : Type) := {
  backend_new : pyval -> pyval -> H -> option exn;
  backend_enter : H -> option exn;
  backend_send : FluentMessage -> H -> option exn;
  backend_exit : option exn -> H -> outcome exn bool
}.

(** A backend that accepts every call and never suppresses an exception:
    the recording stub of the spec's tests (section 8). *)
#[export] Instance accepting_backend {H} : Backend H :=
  {| backend_new _ _ _ := None;
     backend_enter _ := None;
     backend_send _ _ := None;
     backend_exit _ _ := Normal false |}.

(** A backend whose [send] raises [e]; the spec's "auth failed" test. *)
Definition failing_backend {H} (e : exn) : Backend H :=
  {| backend_new _ _ _ := None;
     backend_enter _ := None;
     backend_send _ _ := Some e;
     backend_exit _ _ := Normal false |}.
