(* ===== verification/MailGun.v ===== *)
(** The block [MailGun] of [src/mailgun_block.py]: its configuration and
    [process_signal], statement for statement, as a computation of
    [PyM exn trace unit].  The state is the trace of effects: the calls
    made to the backend and the signals notified, in order.  The template
    evaluator, the backend and [notify_signals] are the interfaces
    [Resolver], [Backend] and [Host], so every theorem holds for every
    implementation of them. *)

From Stdlib Require Import String List Arith ZArith Lia.
From S2P Require Import Prelude PyValue PyStmt NioProperties NioBlock Fluentmail.
Import ListNotations.

(** ** Effects *)

(** An effect of a run: a call to a collaborator with its arguments and
    what it answered ([None]: it returned; [Some e]: it raised [e]). *)
Inductive event :=
| EvBackendNew (domain api_key : pyval) (res : option exn)
    (** [MailgunBackend(domain, api_key)] *)
| EvEnter (res : option exn)
    (** [backend.__enter__()] *)
| EvSend (msg : FluentMessage) (res : option exn)
    (** [msg.send(backend)] *)
| EvExit (exc : option exn) (res : outcome exn bool)
    (** [backend.__exit__(...)] with the exception leaving the body *)
| EvNotify (s : signal) (res : option exn).
    (** [self.notify_signals(s)] *)

Definition trace := list event.

(** ** The block *)

(** [class MailGun(EnrichSignals, Block)]: its three object properties
    and the [enrich] property of the mixin. *)
Record MailGun := mk_MailGun {
  creds : MailgunCreds;
  emails : Emails;
  message : Message;
  enrich : EnrichProperties
}.

(** The result dicts of the two [notify_signals] calls. *)
Definition success_data : dict :=
  [("error"%string, PyInt 0%Z); ("message"%string, PyStr "Password reset email sent."%string)].

Definition error_data (msg : pyval) : dict :=
  [("error"%string, PyInt 1%Z); ("message"%string, msg)].

(** The values [process_signal] resolves before its [try]. *)
Record Resolved := mk_Resolved {
  r_api_domain : pyval;
  r_api_key : pyval;
  r_text : pyval;
  r_html : pyval;
  r_subject : pyval;
  r_sender : pyval;
  r_to : list pyval;
  r_cc : list pyval;
  r_bcc : list pyval
}.

(** Lines 54-60: [FluentMessage(_subject, _text, html=_html,
    from_address=_sender, to=_to_recipients, cc=_cc_recipients,
    bcc=_bcc_recipients)]. *)
Definition message_of (r : Resolved) : FluentMessage :=
  mk_FluentMessage (r_subject r) (r_text r) (r_html r) (r_sender r)
                   (r_to r) (r_cc r) (r_bcc r).

(** The notifications of a trace. *)
Definition is_notify (ev : event) : bool :=
  match ev with EvNotify _ _ => true | _ => false end.

(** The sends of a trace. *)
Definition is_send (ev : event) : bool :=
  match ev with EvSend _ _ => true | _ => false end.

(** What a call that returns nothing evaluates to. *)
Definition answer (res : option exn) : outcome exn unit :=
  match res with None => Normal tt | Some e => Raise e end.

Section Block.
Context `{Resolver} `{Backend trace} `{Host trace}.
Local Abbreviation M := (PyM exn trace).

(** A call to a collaborator: it answers as a function of the history
    before the call, and the call is recorded with its answer. *)
Definition call (ev : option exn -> event) (r : trace -> option exn) : M unit :=
  fun tr => let res := r tr in (answer res, tr ++ [ev res]).

Definition MailgunBackend (d k : pyval) : M unit :=
  call (EvBackendNew d k) (backend_new d k).

Definition backend_enter_call : M unit := call EvEnter backend_enter.

Definition msg_send (msg : FluentMessage) : M unit :=
  call (EvSend msg) (backend_send msg).

Definition backend_exit_call (oe : option exn) : M bool :=
  fun tr => let res := backend_exit oe tr in (res, tr ++ [EvExit oe res]).

Definition notify (s : signal) : M unit := call (EvNotify s) (notify_signals s).

(** Lines 53-63: the body of the [try]: send in the [with] statement,
    then notify the success signal. *)
Definition send_body (blk : MailGun) (sig : signal) (r : Resolved) : M unit :=
  let* _ :=
    py_with (MailgunBackend (r_api_domain r) (r_api_key r))
            (fun _ => backend_enter_call)
            (fun _ oe => backend_exit_call oe)
            (fun _ => msg_send (message_of r)) in
  notify (get_output_signal (enrich blk) success_data sig).

(** Lines 65-66: [except Exception as e:] notify [e.args[0]]. *)
Definition report_error (blk : MailGun) (sig : signal) (e : exn) : M unit :=
  let* m := plift (args0 e) in
  notify (get_output_signal (enrich blk) (error_data m) sig).

(** Lines 52-66: the [try] statement, over the resolved values. *)
Definition send_and_report (blk : MailGun) (sig : signal) (r : Resolved) : M unit :=
  py_try catches_Exception (send_body blk sig r) (report_error blk sig).

(** [for recipient in rs: xs.append(recipient.recip(signal))]. *)
Definition resolve_recipients (rs : list Recipient) (sig : signal) : M (list pyval) :=
  for_append (fun rc => plift (resolve_str (recip rc) sig)) rs [].

(** [MailGun.process_signal(self, signal)]. *)
Definition process_signal (blk : MailGun) (sig : signal) : M unit :=
  let* _api_domain := plift (resolve (api_domain (creds blk)) sig) in
  let* _api_key := plift (resolve (api_key (creds blk)) sig) in
  let* _text := plift (resolve_str (text (message blk)) sig) in
  let* _html := plift (resolve_str (html (message blk)) sig) in
  let* _subject := plift (resolve_str (subject (message blk)) sig) in
  let* _sender := plift (resolve_str (sender (emails blk)) sig) in
  let* _to_recipients := resolve_recipients (to_recipients (emails blk)) sig in
  let* _cc_recipients := resolve_recipients (cc_recipients (emails blk)) sig in
  let* _bcc_recipients := resolve_recipients (bcc_recipients (emails blk)) sig in
  send_and_report blk sig
    (mk_Resolved _api_domain _api_key _text _html _subject _sender
                 _to_recipients _cc_recipients _bcc_recipients).

(** The resolution part as a pure function: the values in the order the
    code computes them, or the first exception. *)
Definition resolve_fields (blk : MailGun) (sig : signal) : outcome exn Resolved :=
  match resolve (api_domain (creds blk)) sig with Raise e => Raise e | Normal d =>
  match resolve (api_key (creds blk)) sig with Raise e => Raise e | Normal k =>
  match resolve_str (text (message blk)) sig with Raise e => Raise e | Normal tx =>
  match resolve_str (html (message blk)) sig with Raise e => Raise e | Normal ht =>
  match resolve_str (subject (message blk)) sig with Raise e => Raise e | Normal sj =>
  match resolve_str (sender (emails blk)) sig with Raise e => Raise e | Normal sd =>
  match collect (fun rc => resolve_str (recip rc) sig) (to_recipients (emails blk)) with
  | Raise e => Raise e | Normal tos =>
  match collect (fun rc => resolve_str (recip rc) sig) (cc_recipients (emails blk)) with
  | Raise e => Raise e | Normal ccs =>
  match collect (fun rc => resolve_str (recip rc) sig) (bcc_recipients (emails blk)) with
  | Raise e => Raise e | Normal bccs =>
    Normal (mk_Resolved d k tx ht sj sd tos ccs bccs)
  end end end end end end end end end.

(** An event records what the collaborator answers at the history
    before it. *)
Definition answered (h : trace) (ev : event) : Prop :=
  match ev with
  | EvBackendNew d k res => res = backend_new d k h
  | EvEnter res => res = backend_enter h
  | EvSend m res => res = backend_send m h
  | EvExit oe res => res = backend_exit oe h
  | EvNotify s res => res = notify_signals s h
  end.

(** The events [evs] appended to the history [h] are a faithful record
    of the collaborators' answers. *)
Fixpoint faithful (h : trace) (evs : trace) : Prop :=
  match evs with
  | [] => True
  | ev :: evs' => answered h ev /\ faithful (h ++ [ev]) evs'
  end.
End Block.


(** ** The paths of the [try] statement *)

(** Every way the [try] statement of lines 52-66 can run, with the
    effects it performs and its outcome.  The collaborators' answers are
    free: a path is any sequence of answers the code can meet. *)
Section Paths.
Variables (en : EnrichProperties) (sig : signal) (r : Resolved).
Local Abbreviation New := (EvBackendNew (r_api_domain r) (r_api_key r)).
Local Abbreviation Send := (EvSend (message_of r)).
Local Abbreviation ok_signal := (get_output_signal en success_data sig).
Local Abbreviation err_signal v := (get_output_signal en (error_data v) sig).

(** Lines 53-63. *)
Inductive body_path : trace -> outcome exn unit -> Prop :=
| bp_new_raise e :
    body_path [New (Some e)] (Raise e)
| bp_enter_raise e :
    body_path [New None; EvEnter (Some e)] (Raise e)
| bp_sent b rn :
    body_path [New None; EvEnter None; Send None; EvExit None (Normal b);
               EvNotify ok_signal rn] (answer rn)
| bp_sent_exit_raise e2 :
    body_path [New None; EvEnter None; Send None; EvExit None (Raise e2)] (Raise e2)
| bp_send_raise_suppressed e rn :
    body_path [New None; EvEnter None; Send (Some e); EvExit (Some e) (Normal true);
               EvNotify ok_signal rn] (answer rn)
| bp_send_raise_reraised e :
    body_path [New None; EvEnter None; Send (Some e); EvExit (Some e) (Normal false)]
              (Raise e)
| bp_send_raise_exit_raise e e2 :
    body_path [New None; EvEnter None; Send (Some e); EvExit (Some e) (Raise e2)]
              (Raise e2).

(** Lines 65-66, entered with the exception [e] of the body. *)
Inductive handler_path (e : exn) : trace -> outcome exn unit -> Prop :=
| hp_uncaught :
    exc_is_exception e = false -> handler_path e [] (Raise e)
| hp_no_args :
    exc_is_exception e = true -> exc_args e = [] ->
    handler_path e [] (Raise IndexError_tuple)
| hp_notify v vs rn :
    exc_is_exception e = true -> exc_args e = v :: vs ->
    handler_path e [EvNotify (err_signal v) rn] (answer rn).

(** Lines 52-66. *)
Inductive try_path : trace -> outcome exn unit -> Prop :=
| tp_body evs :
    body_path evs (Normal tt) -> try_path evs (Normal tt)
| tp_except evs e evs' o :
    body_path evs (Raise e) -> handler_path e evs' o -> try_path (evs ++ evs') o.
End Paths.

(** ** Running the handler *)

Section Run.
Context `{Resolver} `{Backend trace} `{Host trace}.

(** Both result dicts have the keys [error] and [message], once each. *)
Lemma result_data_wf v0 v1 : dict_wf [("error"%string, v0); ("message"%string, v1)].
Proof. repeat constructor; simpl; intuition discriminate. Qed.

Lemma resolve_recipients_collect rs sig tr :
  resolve_recipients rs sig tr =
  (match collect (fun rc => resolve_str (recip rc) sig) rs with
   | Normal vs => Normal vs
   | Raise e => Raise e
   end, tr).
Proof. unfold resolve_recipients. now rewrite for_append_collect. Qed.

(** What a successful resolution computed. *)
Lemma resolve_fields_normal blk sig r :
  resolve_fields blk sig = Normal r ->
  resolve (api_domain (creds blk)) sig = Normal (r_api_domain r) /\
  resolve (api_key (creds blk)) sig = Normal (r_api_key r) /\
  resolve_str (text (message blk)) sig = Normal (r_text r) /\
  resolve_str (html (message blk)) sig = Normal (r_html r) /\
  resolve_str (subject (message blk)) sig = Normal (r_subject r) /\
  resolve_str (sender (emails blk)) sig = Normal (r_sender r) /\
  collect (fun rc => resolve_str (recip rc) sig) (to_recipients (emails blk)) = Normal (r_to r) /\
  collect (fun rc => resolve_str (recip rc) sig) (cc_recipients (emails blk)) = Normal (r_cc r) /\
  collect (fun rc => resolve_str (recip rc) sig) (bcc_recipients (emails blk)) = Normal (r_bcc r).
Proof.
  unfold resolve_fields.
  repeat match goal with
         | |- context [match ?o with Normal _ => _ | Raise _ => _ end] =>
             destruct o eqn:?; [|discriminate]
         end.
  intros Hr. injection Hr as <-. simpl. auto 10.
Qed.

(** [process_signal] is its resolution, a pure function that may
    raise, followed by the [try] statement on the resolved values. *)
Lemma process_signal_split blk sig tr :
  process_signal blk sig tr =
  match resolve_fields blk sig with
  | Raise e => (Raise e, tr)
  | Normal r => send_and_report blk sig r tr
  end.
Proof.
  unfold process_signal, resolve_fields.
  repeat match goal with
         | |- context [plift ?o] => destruct o; cbn [pbind plift pret praise]; [|reflexivity]
         end.
  do 3 (unfold pbind at 1; rewrite resolve_recipients_collect;
        destruct collect; [|reflexivity]).
  reflexivity.
Qed.

(** Close a goal [exists evs o, (o', tr ++ evs') = (o, tr ++ evs) /\ P evs o]
    once the run is computed. *)
Ltac path_exists c :=
  repeat rewrite <- app_assoc; simpl;
  eexists; eexists; split; [reflexivity | c].

Lemma send_body_path blk sig r tr :
  exists evs o, send_body blk sig r tr = (o, tr ++ evs) /\
                body_path (enrich blk) sig r evs o /\ faithful tr evs.
Proof.
  unfold send_body, py_with, MailgunBackend, backend_enter_call, msg_send,
    backend_exit_call, notify, call, pbind, pret.
  repeat match goal with
         | |- context [answer ?x] => destruct x eqn:?; cbn [answer]
         | |- context [match ?x with Normal _ => _ | Raise _ => _ end] => destruct x eqn:?
         | |- context [if ?b then _ else _] => destruct b
         end.
  all: path_exists ltac:(split; [econstructor | simpl; intuition congruence]).
Qed.

Lemma faithful_app h evs evs' :
  faithful h (evs ++ evs') <-> faithful h evs /\ faithful (h ++ evs) evs'.
Proof.
  revert h. induction evs as [|ev evs IH]; intros h; simpl.
  - rewrite app_nil_r. tauto.
  - rewrite IH, <- app_assoc. simpl. tauto.
Qed.

Lemma report_error_path blk sig e tr :
  exc_is_exception e = true ->
  exists evs o, report_error blk sig e tr = (o, tr ++ evs) /\
                handler_path (enrich blk) sig e evs o /\ faithful tr evs.
Proof.
  intros Hexc. unfold report_error, args0, notify, call, pbind, plift, pret, praise.
  destruct (exc_args e) as [|v vs] eqn:Hargs.
  - exists [], (Raise IndexError_tuple). rewrite app_nil_r.
    split; [reflexivity | split; [now apply hp_no_args | exact I]].
  - path_exists ltac:(split; [eapply hp_notify; eassumption | simpl; auto]).
Qed.

(** Every run of the [try] statement follows one of its paths, and its
    trace records the collaborators' answers. *)
Lemma send_and_report_path blk sig r tr :
  exists evs o, send_and_report blk sig r tr = (o, tr ++ evs) /\
                try_path (enrich blk) sig r evs o /\ faithful tr evs.
Proof.
  unfold send_and_report, py_try.
  destruct (send_body_path blk sig r tr) as (evs & o & -> & Hb & Hf).
  destruct o as [[]|e].
  - exists evs, (Normal tt). split; [reflexivity | split; [now constructor | exact Hf]].
  - destruct (catches_Exception e) eqn:Hc.
    + destruct (report_error_path blk sig e (tr ++ evs) Hc) as (evs' & o & -> & Hh & Hf').
      exists (evs ++ evs'), o. rewrite app_assoc, faithful_app.
      split; [reflexivity | split; [econstructor; eassumption | auto]].
    + exists (evs ++ []), (Raise e). rewrite app_nil_r.
      split; [reflexivity | split; [|exact Hf]].
      rewrite <- (app_nil_r evs) at 1.
      econstructor; [eassumption | now constructor].
Qed.

(** A path notifies only the success signal and error signals. *)
Lemma try_path_notified en sig r evs o s rn :
  try_path en sig r evs o -> In (EvNotify s rn) evs ->
  s = get_output_signal en success_data sig \/
  exists v, s = get_output_signal en (error_data v) sig.
Proof.
  intros Hp Hin. destruct Hp as [evs Hb | evs e evs' o Hb Hh].
  - inversion Hb; subst; simpl in Hin; intuition congruence.
  - apply in_app_or in Hin.
    inversion Hb; subst; inversion Hh; subst; simpl in Hin;
      intuition (try congruence);
      match goal with H : EvNotify _ _ = EvNotify _ _ |- _ => injection H as <- _ end;
      eauto.
Qed.

(** A path sends only the message built from the resolved values. *)
Lemma try_path_sent en sig r evs o m res :
  try_path en sig r evs o -> In (EvSend m res) evs -> m = message_of r.
Proof.
  intros Hp Hin. destruct Hp as [evs Hb | evs e evs' o Hb Hh].
  - inversion Hb; subst; simpl in Hin; intuition congruence.
  - apply in_app_or in Hin.
    inversion Hb; subst; inversion Hh; subst; simpl in Hin; intuition congruence.
Qed.

(** Every run of [process_signal]: the resolution raises and nothing
    happens, or the [try] statement runs one of its paths. *)
Lemma process_signal_path blk sig tr :
  exists evs o, process_signal blk sig tr = (o, tr ++ evs) /\ faithful tr evs /\
    match resolve_fields blk sig with
    | Raise e => evs = [] /\ o = Raise e
    | Normal r => try_path (enrich blk) sig r evs o
    end.
Proof.
  rewrite process_signal_split. destruct (resolve_fields blk sig) as [r|e].
  - destruct (send_and_report_path blk sig r tr) as (evs & o & Hrun & Hp & Hf).
    exists evs, o. auto.
  - exists [], (Raise e). rewrite app_nil_r. simpl. auto.
Qed.
End Run.

(** Unfold one run of the block down to the collaborators' answers. *)
Ltac unfold_block :=
  unfold send_and_report, py_try, send_body, report_error, py_with, MailgunBackend,
    backend_enter_call, msg_send, backend_exit_call, notify, call, pbind, pret, praise,
    plift, args0, catches_Exception.

(** Rewrite with the hypotheses that fix the collaborators' answers and
    compute the run. *)
Ltac run_steps :=
  unfold_block;
  repeat (match goal with
          | H : forall h, _ h = _ |- _ => rewrite !H
          | H : exc_args _ = _ |- _ => rewrite H
          | H : exc_is_exception _ = _ |- _ => rewrite H
          end; cbn beta iota zeta delta [answer pret praise]).

(** Compute the run and normalise its trace. *)
Ltac run_block := run_steps; repeat rewrite <- app_assoc; reflexivity.


Section Behaviour.
Context `{Resolver} `{Backend trace} `{Host trace}.
Variables (blk : MailGun) (sig : signal).
Local Abbreviation ok_signal := (get_output_signal (enrich blk) success_data sig).
Local Abbreviation err_signal v := (get_output_signal (enrich blk) (error_data v) sig).

(** C1. When every property resolves and every collaborator returns,
    [process_signal] creates the backend, enters it, sends the message
    built from the resolved values, exits it, and notifies the success
    signal [{error: 0, message: "Password reset email sent."}]. *)
Theorem process_signal_success r tr b :
  resolve_fields blk sig = Normal r ->
  (forall h, backend_new (r_api_domain r) (r_api_key r) h = None) ->
  (forall h, backend_enter h = None) ->
  (forall h, backend_send (message_of r) h = None) ->
  (forall h, backend_exit None h = Normal b) ->
  (forall h, notify_signals ok_signal h = None) ->
  process_signal blk sig tr =
  (Normal tt,
   tr ++ [EvBackendNew (r_api_domain r) (r_api_key r) None; EvEnter None;
          EvSend (message_of r) None; EvExit None (Normal b); EvNotify ok_signal None]).
Proof. intros Hr. rewrite process_signal_split, Hr. intros. run_block. Qed.

(** C2. When [send] raises an [Exception] [e] whose [args] start with
    [v] and [__exit__] does not suppress it, the backend is still
    exited, with [e], and the block notifies
    [{error: 1, message: v}] and returns normally. *)
Theorem process_signal_send_error r tr e v vs :
  resolve_fields blk sig = Normal r ->
  (forall h, backend_new (r_api_domain r) (r_api_key r) h = None) ->
  (forall h, backend_enter h = None) ->
  (forall h, backend_send (message_of r) h = Some e) ->
  (forall h, backend_exit (Some e) h = Normal false) ->
  exc_is_exception e = true -> exc_args e = v :: vs ->
  (forall h, notify_signals (err_signal v) h = None) ->
  process_signal blk sig tr =
  (Normal tt,
   tr ++ [EvBackendNew (r_api_domain r) (r_api_key r) None; EvEnter None;
          EvSend (message_of r) (Some e); EvExit (Some e) (Normal false);
          EvNotify (err_signal v) None]).
Proof. intros Hr. rewrite process_signal_split, Hr. intros. run_block. Qed.

(** C4. Property resolution happens before the [try] (lines 33-50): an
    exception raised by a template escapes [process_signal], no backend
    is created and no signal is notified, whereas the spec (sections 4
    and 7) reports it as [{error: 1, ...}]. *)
Theorem process_signal_resolution_escapes tr e :
  resolve_fields blk sig = Raise e ->
  process_signal blk sig tr = (Raise e, tr).
Proof. intros Hr. now rewrite process_signal_split, Hr. Qed.

(** C7. An [Exception] raised with no arguments makes [e.args[0]] raise
    [IndexError] inside the handler: the block exits the backend but
    notifies nothing, and the [IndexError] escapes. *)
Theorem process_signal_no_args_escapes r tr e :
  resolve_fields blk sig = Normal r ->
  (forall h, backend_new (r_api_domain r) (r_api_key r) h = None) ->
  (forall h, backend_enter h = None) ->
  (forall h, backend_send (message_of r) h = Some e) ->
  (forall h, backend_exit (Some e) h = Normal false) ->
  exc_is_exception e = true -> exc_args e = [] ->
  process_signal blk sig tr =
  (Raise IndexError_tuple,
   tr ++ [EvBackendNew (r_api_domain r) (r_api_key r) None; EvEnter None;
          EvSend (message_of r) (Some e); EvExit (Some e) (Normal false)]).
Proof. intros Hr. rewrite process_signal_split, Hr. intros. run_block. Qed.

(** C8. The success notification is inside the [try]: when delivering
    it raises an [Exception] [e] with arguments [v :: vs], the handler
    notifies a second signal, [{error: 1, message: v}], after the mail
    was sent; the spec promises exactly one result event. *)
Theorem process_signal_double_notify r tr b e v vs :
  resolve_fields blk sig = Normal r ->
  (forall h, backend_new (r_api_domain r) (r_api_key r) h = None) ->
  (forall h, backend_enter h = None) ->
  (forall h, backend_send (message_of r) h = None) ->
  (forall h, backend_exit None h = Normal b) ->
  (forall h, notify_signals ok_signal h = Some e) ->
  exc_is_exception e = true -> exc_args e = v :: vs ->
  (forall h, notify_signals (err_signal v) h = None) ->
  process_signal blk sig tr =
  (Normal tt,
   tr ++ [EvBackendNew (r_api_domain r) (r_api_key r) None; EvEnter None;
          EvSend (message_of r) None; EvExit None (Normal b);
          EvNotify ok_signal (Some e); EvNotify (err_signal v) None]).
Proof. intros Hr. rewrite process_signal_split, Hr. intros. run_block. Qed.

(** C14. When [send] raises and the backend's [__exit__] returns a true
    value, the [with] statement swallows the exception and the block
    reports [{error: 0, message: "Password reset email sent."}] for a
    mail that was not sent. *)
Theorem process_signal_suppressed_reports_success r tr e :
  resolve_fields blk sig = Normal r ->
  (forall h, backend_new (r_api_domain r) (r_api_key r) h = None) ->
  (forall h, backend_enter h = None) ->
  (forall h, backend_send (message_of r) h = Some e) ->
  (forall h, backend_exit (Some e) h = Normal true) ->
  (forall h, notify_signals ok_signal h = None) ->
  process_signal blk sig tr =
  (Normal tt,
   tr ++ [EvBackendNew (r_api_domain r) (r_api_key r) None; EvEnter None;
          EvSend (message_of r) (Some e); EvExit (Some e) (Normal true);
          EvNotify ok_signal None]).
Proof. intros Hr. rewrite process_signal_split, Hr. intros. run_block. Qed.

(** One result or an uncaught exception, for a delivering host. *)
Lemma one_result_or_escape r tr :
  resolve_fields blk sig = Normal r ->
  (forall s h, notify_signals s h = None) ->
  exists evs o, process_signal blk sig tr = (o, tr ++ evs) /\
    ((o = Normal tt /\ countb is_notify evs = 1) \/
     (countb is_notify evs = 0 /\
      exists e, o = Raise e /\ (exc_is_exception e = false \/ e = IndexError_tuple))).
Proof.
  intros Hr Hn. destruct (process_signal_path blk sig tr) as (evs & o & Hrun & Hf & Hp).
  rewrite Hr in Hp. exists evs, o. split; [exact Hrun|].
  destruct Hp as [evs Hb | evs e evs' o Hb Hh].
  - inversion Hb; subst; simpl in Hf; rewrite ?Hn in Hf; intuition subst; simpl in *.
  - rewrite faithful_app in Hf. destruct Hf as [Hf1 Hf2].
    inversion Hb; subst; simpl in Hf1; rewrite ?Hn in Hf1; intuition subst;
      simpl in *; try discriminate;
      inversion Hh; subst; simpl in Hf2; rewrite ?Hn in Hf2; intuition subst;
      first [ left; split; reflexivity
            | right; split; [reflexivity | eexists; split; [reflexivity | auto]] ].
Qed.

(** C5. With a host whose [notify_signals] always returns, every run
    whose properties resolve either notifies exactly one result signal
    and returns, or notifies none and lets escape an exception that
    [except Exception] does not catch or the [IndexError] of
    [e.args[0]]. *)
Theorem process_signal_one_result r tr :
  resolve_fields blk sig = Normal r ->
  (forall s h, notify_signals s h = None) ->
  exists evs o, process_signal blk sig tr = (o, tr ++ evs) /\
    ((o = Normal tt /\ countb is_notify evs = 1) \/
     (countb is_notify evs = 0 /\
      exists e, o = Raise e /\ (exc_is_exception e = false \/ e = IndexError_tuple))).
Proof. exact (one_result_or_escape r tr). Qed.

(** C9. Every signal a run notifies carries, where the mixin's
    configuration puts the result, either [error = 0] and the success
    message, or [error = 1] and a message. *)
Theorem process_signal_notified_wellformed tr :
  exists evs o, process_signal blk sig tr = (o, tr ++ evs) /\
    forall s rn, In (EvNotify s rn) evs ->
      (payload_get (enrich blk) "error" s = Some (PyInt 0) /\
       payload_get (enrich blk) "message" s = Some (PyStr "Password reset email sent.")) \/
      (payload_get (enrich blk) "error" s = Some (PyInt 1) /\
       exists v, payload_get (enrich blk) "message" s = Some v).
Proof.
  destruct (process_signal_path blk sig tr) as (evs & o & Hrun & _ & Hp).
  exists evs, o. split; [exact Hrun|]. intros s rn Hin.
  destruct (resolve_fields blk sig) as [r|e].
  - destruct (try_path_notified _ _ _ _ _ _ _ Hp Hin) as [->|[v ->]].
    + left. split; apply payload_get_output; try reflexivity; apply result_data_wf.
    + right. split; [|exists v]; apply payload_get_output; try reflexivity;
        apply result_data_wf.
  - destruct Hp as [-> _]. destruct Hin.
Qed.

(** C13. The block keeps no state between signals and deduplicates
    nothing: two runs on the same signal send the message twice and
    notify twice. *)
Theorem process_signal_twice_sends_twice r tr b :
  resolve_fields blk sig = Normal r ->
  (forall h, backend_new (r_api_domain r) (r_api_key r) h = None) ->
  (forall h, backend_enter h = None) ->
  (forall h, backend_send (message_of r) h = None) ->
  (forall h, backend_exit None h = Normal b) ->
  (forall h, notify_signals ok_signal h = None) ->
  exists evs, (let* _ := process_signal blk sig in process_signal blk sig) tr =
              (Normal tt, tr ++ evs) /\
              countb is_send evs = 2 /\ countb is_notify evs = 2.
Proof.
  intros Hr. unfold pbind at 1. rewrite process_signal_split, Hr. intros.
  run_steps. rewrite process_signal_split, Hr. run_steps.
  repeat rewrite <- app_assoc. eexists; split; [reflexivity | split; reflexivity].
Qed.

(** C15. Every message a run sends is built from the resolved
    properties: sender, subject, text and html are the values of their
    templates, and the To, CC and BCC lists hold, position by position,
    the values of the configured recipient templates (so an empty
    configuration gives an empty list). *)
Theorem process_signal_sends_resolved_message tr :
  exists evs o, process_signal blk sig tr = (o, tr ++ evs) /\
    forall m res, In (EvSend m res) evs ->
      resolve_str (sender (emails blk)) sig = Normal (fm_from_address m) /\
      resolve_str (subject (message blk)) sig = Normal (fm_subject m) /\
      resolve_str (text (message blk)) sig = Normal (fm_text m) /\
      resolve_str (html (message blk)) sig = Normal (fm_html m) /\
      Forall2 (fun rc a => resolve_str (recip rc) sig = Normal a)
              (to_recipients (emails blk)) (fm_to m) /\
      Forall2 (fun rc a => resolve_str (recip rc) sig = Normal a)
              (cc_recipients (emails blk)) (fm_cc m) /\
      Forall2 (fun rc a => resolve_str (recip rc) sig = Normal a)
              (bcc_recipients (emails blk)) (fm_bcc m).
Proof.
  destruct (process_signal_path blk sig tr) as (evs & o & Hrun & _ & Hp).
  exists evs, o. split; [exact Hrun|]. intros m res Hin.
  destruct (resolve_fields blk sig) as [r|e] eqn:Hr.
  - rewrite (try_path_sent _ _ _ _ _ _ _ Hp Hin).
    apply resolve_fields_normal in Hr. simpl.
    intuition (auto using collect_normal_inv).
  - destruct Hp as [-> _]. destruct Hin.
Qed.

(** C16. An exception whose class does not derive from [Exception]
    (a [KeyboardInterrupt], say) raised by [send] is not caught: the
    backend is exited with it, nothing is notified, and it escapes. *)
Theorem process_signal_base_exception_escapes r tr e :
  resolve_fields blk sig = Normal r ->
  (forall h, backend_new (r_api_domain r) (r_api_key r) h = None) ->
  (forall h, backend_enter h = None) ->
  (forall h, backend_send (message_of r) h = Some e) ->
  (forall h, backend_exit (Some e) h = Normal false) ->
  exc_is_exception e = false ->
  process_signal blk sig tr =
  (Raise e,
   tr ++ [EvBackendNew (r_api_domain r) (r_api_key r) None; EvEnter None;
          EvSend (message_of r) (Some e); EvExit (Some e) (Normal false)]).
Proof. intros Hr. rewrite process_signal_split, Hr. intros. run_block. Qed.
End Behaviour.

Section Recipients.
Context `{Resolver}.

(** C10. When every recipient template resolves, the loop of lines
    43-44 returns the resolved addresses in the configured order and
    changes nothing else. *)
Theorem resolve_recipients_in_order (rs : list Recipient) (sig : signal)
        (f : Recipient -> pyval) tr :
  (forall rc, In rc rs -> resolve_str (recip rc) sig = Normal (f rc)) ->
  resolve_recipients rs sig tr = (Normal (map f rs), tr).
Proof.
  intros Hf. rewrite resolve_recipients_collect.
  now rewrite (collect_all_normal _ f).
Qed.

(** C11. The loop stops at the first recipient whose template raises,
    and the exception leaves it. *)
Theorem resolve_recipients_first_error pre rc post (sig : signal)
        (f : Recipient -> pyval) e tr :
  (forall rc', In rc' pre -> resolve_str (recip rc') sig = Normal (f rc')) ->
  resolve_str (recip rc) sig = Raise e ->
  resolve_recipients (pre ++ rc :: post) sig tr = (Raise e, tr).
Proof.
  intros Hpre Hrc. rewrite resolve_recipients_collect.
  now rewrite (collect_first_raise _ f pre rc post e).
Qed.
End Recipients.
