(* ===== verification/Replay.v ===== *)
(** Exactness of the path relations of [MailGun]: every path that
    [try_path] lists is a run of the [try] statement for some backend and
    host.  Given the effects of a path, [replay_backend] and [replay_host]
    answer every call as the path recorded it; running
    [send_and_report] against them reproduces the path.  With
    [send_and_report_path] (every run follows a path), the relation is
    exactly the set of behaviours of lines 52-66. *)

From Stdlib Require Import String List ZArith.
From S2P Require Import Prelude PyValue PyStmt NioProperties NioBlock Fluentmail MailGun.
Import ListNotations.

Definition signal_eq_dec (s1 s2 : signal) : {s1 = s2} + {s1 <> s2}.
Proof.
  decide equality. apply List.list_eq_dec.
  intros [k1 v1] [k2 v2].
  destruct (string_dec k1 k2), (pyval_eq_dec v1 v2); subst;
    [left; reflexivity | right; congruence ..].
Defined.

(** ** Answers recorded in a trace *)

Fixpoint new_answer (evs : trace) : option exn :=
  match evs with
  | [] => None
  | EvBackendNew _ _ res :: _ => res
  | _ :: evs' => new_answer evs'
  end.

Fixpoint enter_answer (evs : trace) : option exn :=
  match evs with
  | [] => None
  | EvEnter res :: _ => res
  | _ :: evs' => enter_answer evs'
  end.

Fixpoint send_answer (evs : trace) : option exn :=
  match evs with
  | [] => None
  | EvSend _ res :: _ => res
  | _ :: evs' => send_answer evs'
  end.

Fixpoint exit_answer (evs : trace) : outcome exn bool :=
  match evs with
  | [] => Normal false
  | EvExit _ res :: _ => res
  | _ :: evs' => exit_answer evs'
  end.

(** The answer recorded for the first notification of [s]. *)
Fixpoint notify_answer (evs : trace) (s : signal) : option exn :=
  match evs with
  | [] => None
  | EvNotify s' rn :: evs' => if signal_eq_dec s s' then rn else notify_answer evs' s
  | _ :: evs' => notify_answer evs' s
  end.

Definition replay_backend (evs : trace) : Backend trace :=
  {| backend_new _ _ _ := new_answer evs;
     backend_enter _ := enter_answer evs;
     backend_send _ _ := send_answer evs;
     backend_exit _ _ := exit_answer evs |}.

Definition replay_host (evs : trace) : Host trace :=
  {| notify_signals s _ := notify_answer evs s |}.

(** ** Lemmas *)

(** The success signal and an error signal differ, whatever the mixin's
    configuration: their [error] fields do. *)
Lemma ok_signal_ne_err en sig v :
  get_output_signal en success_data sig <> get_output_signal en (error_data v) sig.
Proof.
  intros Heq.
  assert (H0 : payload_get en "error" (get_output_signal en success_data sig) = Some (PyInt 0))
    by (apply payload_get_output; [apply result_data_wf | reflexivity]).
  assert (H1 : payload_get en "error" (get_output_signal en (error_data v) sig) = Some (PyInt 1))
    by (apply payload_get_output; [apply result_data_wf | reflexivity]).
  rewrite Heq, H1 in H0. discriminate.
Qed.

(** Decide the signal comparisons of [notify_answer] on a path. *)
Ltac decide_signals :=
  repeat match goal with
         | |- context [signal_eq_dec ?a ?a] =>
             destruct (signal_eq_dec a a) as [_|Hn]; [|contradiction Hn; reflexivity]
         | |- context [signal_eq_dec (get_output_signal ?en (error_data ?v) ?sig)
                                     (get_output_signal ?en success_data ?sig)] =>
             destruct (signal_eq_dec (get_output_signal en (error_data v) sig)
                                     (get_output_signal en success_data sig)) as [Heq|_];
             [destruct (ok_signal_ne_err en sig v); symmetry; exact Heq|]
         end.

(** C17. Every path of the [try] statement is a run: against the backend
    and host that answer as the path records, [send_and_report] performs
    exactly the path's effects and ends with its outcome. *)
Theorem try_path_realised blk sig r evs o tr :
  try_path (enrich blk) sig r evs o ->
  @send_and_report (replay_backend evs) (replay_host evs) blk sig r tr = (o, tr ++ evs).
Proof.
  intros Hp. destruct Hp as [evs Hb | evs e evs' o Hb Hh];
    [inversion Hb | inversion Hb; inversion Hh]; subst;
    repeat match goal with
           | H : answer ?x = _ |- _ => destruct x; cbn [answer] in H; try discriminate H
           | H : Raise _ = Raise _ |- _ => injection H as H; subst
           end;
    unfold_block; cbn [replay_backend replay_host backend_new backend_enter backend_send
                        backend_exit notify_signals new_answer enter_answer send_answer
                        exit_answer notify_answer app answer pret praise];
    repeat (match goal with
            | H : exc_args _ = _ |- _ => rewrite H
            | H : exc_is_exception _ = _ |- _ => rewrite H
            | |- _ => progress decide_signals
            end; cbn [answer pret praise]);
    repeat rewrite <- app_assoc; reflexivity.
Qed.
