(* ===== verification/Connection.v ===== *)
(** The lifecycle of the Mailgun connection that [process_signal] opens in
    its [with] statement (lines 53-61), as a state machine over the
    effects of a run: the backend object is constructed, entered, used
    to send, and exited.  The spec (sections 4.1, 5 and 9) requires that
    the connection be released on every exit path; the theorems show
    that every run of [process_signal], whatever the collaborators
    answer, is accepted by the machine and never ends with the connection
    open, and that a run sends at most once. *)

From Stdlib Require Import List Arith Lia.
From S2P Require Import Prelude PyValue PyStmt NioProperties NioBlock Fluentmail MailGun.
Import ListNotations.

(** ** The machine *)

Inductive conn :=
| Unopened      (** no backend object yet, or its constructor raised *)
| Constructed   (** [Mailgun(domain, key)] returned; not entered *)
| Opened        (** [__enter__] returned: the connection is held *)
| Released.     (** [__exit__] was called *)

Definition conn_eq_dec (c1 c2 : conn) : {c1 = c2} + {c1 <> c2}.
Proof. decide equality. Defined.

(** One effect moves the connection, or is not allowed in its state.  A
    failed constructor or [__enter__] leaves nothing to release; a
    notification happens only while no connection is held. *)
Inductive conn_step : conn -> event -> conn -> Prop :=
| cs_new_ok d k : conn_step Unopened (EvBackendNew d k None) Constructed
| cs_new_raise d k e : conn_step Unopened (EvBackendNew d k (Some e)) Unopened
| cs_enter_ok : conn_step Constructed (EvEnter None) Opened
| cs_enter_raise e : conn_step Constructed (EvEnter (Some e)) Constructed
| cs_send m res : conn_step Opened (EvSend m res) Opened
| cs_exit oe res : conn_step Opened (EvExit oe res) Released
| cs_notify c s rn : c <> Opened -> conn_step c (EvNotify s rn) c.

(** The machine over a sequence of effects. *)
Inductive conn_steps : conn -> trace -> conn -> Prop :=
| css_nil c : conn_steps c [] c
| css_cons c ev c' evs c'' :
    conn_step c ev c' -> conn_steps c' evs c'' -> conn_steps c (ev :: evs) c''.

(** The same machine as a function. *)
Definition conn_next (c : conn) (ev : event) : option conn :=
  match c, ev with
  | Unopened, EvBackendNew _ _ None => Some Constructed
  | Unopened, EvBackendNew _ _ (Some _) => Some Unopened
  | Constructed, EvEnter None => Some Opened
  | Constructed, EvEnter (Some _) => Some Constructed
  | Opened, EvSend _ _ => Some Opened
  | Opened, EvExit _ _ => Some Released
  | Opened, EvNotify _ _ => None
  | c, EvNotify _ _ => Some c
  | _, _ => None
  end.

Fixpoint conn_run (c : conn) (evs : trace) : option conn :=
  match evs with
  | [] => Some c
  | ev :: evs' => match conn_next c ev with Some c' => conn_run c' evs' | None => None end
  end.

Definition is_exit (ev : event) : bool :=
  match ev with EvExit _ _ => true | _ => false end.

(** ** The machine's lemmas *)

Lemma conn_next_step c ev c' : conn_next c ev = Some c' <-> conn_step c ev c'.
Proof.
  split.
  - destruct c, ev as [d k [e|]|[e|]|m res|oe res|s rn]; simpl; intros H;
      try discriminate; injection H as <-; constructor; discriminate.
  - intros Hs. destruct Hs; simpl; try reflexivity. destruct c; simpl; congruence.
Qed.

Lemma conn_run_steps c evs c' : conn_run c evs = Some c' <-> conn_steps c evs c'.
Proof.
  revert c. induction evs as [|ev evs IH]; intros c; simpl.
  - split; [intros H; injection H as <-; constructor | intros H; inversion H; now subst].
  - split.
    + destruct (conn_next c ev) as [c1|] eqn:Hn; [|discriminate].
      intros H. econstructor; [apply conn_next_step, Hn | apply IH, H].
    + intros H. inversion H as [|? ? c1 ? ? Hs Hss]; subst.
      apply conn_next_step in Hs. rewrite Hs. now apply IH.
Qed.

(** Every path of the [try] statement is accepted by the machine, leaves
    the connection released or never opened, and exits once per send. *)
Lemma try_path_conn en sig r evs o :
  try_path en sig r evs o ->
  exists c, conn_steps Unopened evs c /\ c <> Opened /\
            countb is_send evs <= 1 /\ countb is_send evs = countb is_exit evs.
Proof.
  intros Hp. destruct Hp as [evs Hb | evs e evs' o Hb Hh];
    [inversion Hb | inversion Hb; inversion Hh]; subst;
    (eexists; split; [apply conn_run_steps; reflexivity |
                      unfold countb; simpl; repeat split; (discriminate || lia)]).
Qed.

Section Runs.
Context `{Resolver} `{Backend trace} `{Host trace}.

(** The effects of any run, whatever its outcome, are accepted by the
    machine, leave the connection released or never opened, and exit
    once per send. *)
Lemma process_signal_conn blk sig tr evs o :
  process_signal blk sig tr = (o, tr ++ evs) ->
  exists c, conn_steps Unopened evs c /\ c <> Opened /\
            countb is_send evs <= 1 /\ countb is_send evs = countb is_exit evs.
Proof.
  destruct (process_signal_path blk sig tr) as (evs' & o' & Hrun & _ & Hp).
  intros Hrun'. rewrite Hrun in Hrun'. injection Hrun' as _ Hevs.
  apply app_inv_head in Hevs. subst evs'.
  destruct (resolve_fields blk sig) as [r|e]; [exact (try_path_conn _ _ _ _ _ Hp)|].
  destruct Hp as [-> _]. exists Unopened.
  split; [constructor|]. split; [discriminate|]. unfold countb. simpl. lia.
Qed.

(** C3. Whatever the templates, the backend and the host do, every run
    of [process_signal] follows the connection's lifecycle and ends with
    the connection released or never opened: the [with] statement
    exits the backend on every path that entered it. *)
Theorem process_signal_releases blk sig tr :
  exists evs o c, process_signal blk sig tr = (o, tr ++ evs) /\
                  conn_steps Unopened evs c /\ c <> Opened.
Proof.
  destruct (process_signal_path blk sig tr) as (evs & o & Hrun & _).
  destruct (process_signal_conn _ _ _ _ _ Hrun) as (c & Hc & Hno & _).
  now exists evs, o, c.
Qed.

(** C12. There is no retry: a run sends the message at most once, and
    exits the backend exactly as many times as it sends. *)
Theorem process_signal_sends_at_most_once blk sig tr :
  exists evs o, process_signal blk sig tr = (o, tr ++ evs) /\
                countb is_send evs <= 1 /\ countb is_send evs = countb is_exit evs.
Proof.
  destruct (process_signal_path blk sig tr) as (evs & o & Hrun & _).
  destruct (process_signal_conn _ _ _ _ _ Hrun) as (c & _ & _ & Hle & Heq).
  now exists evs, o.
Qed.
End Runs.
