(* ===== verification/Contract.v ===== *)
(** The contract of the block as the spec states it (sections 3, 4 and 7):
    each signal moves a two-state machine from [Pending] to [Sent] or to
    [Failed], and produces exactly one result event, [{error: 0, message:
    "Password reset email sent."}] or [{error: 1, message}].  The
    refinement theorem relates [process_signal] to this contract: under
    the conditions that the divergence theorems of [MailGun] show to be
    necessary (the properties resolve, the host delivers, the backend
    raises only [Exception]s with arguments and never suppresses), every
    run produces exactly one result event, the one the contract
    prescribes for the delivery outcome. *)

From Stdlib Require Import String List ZArith.
From S2P Require Import Prelude PyValue PyStmt NioProperties NioBlock Fluentmail MailGun.
Import ListNotations.

(** ** The abstract contract *)

Inductive phase := Pending | Sent | Failed.

(** The result event of spec section 3: [{error: 0|1, message}]. *)
Inductive result_event :=
| ResultOk                   (** [{error: 0, message: "Password reset email sent."}] *)
| ResultErr (msg : pyval).   (** [{error: 1, message: msg}] *)

Inductive contract_step : phase -> result_event -> phase -> Prop :=
| ct_sent : contract_step Pending ResultOk Sent
| ct_failed msg : contract_step Pending (ResultErr msg) Failed.

(** ** Observing a run *)

(** The result event a downstream block reads from a notified signal. *)
Definition decode (en : EnrichProperties) (s : signal) : option result_event :=
  match payload_get en "error" s, payload_get en "message" s with
  | Some (PyInt 0), Some (PyStr m) =>
      if String.eqb m "Password reset email sent." then Some ResultOk else None
  | Some (PyInt 1), Some m => Some (ResultErr m)
  | _, _ => None
  end%Z.

(** The result events of a run's effects, in order. *)
Fixpoint observe (en : EnrichProperties) (evs : trace) : list (option result_event) :=
  match evs with
  | [] => []
  | EvNotify s _ :: evs' => decode en s :: observe en evs'
  | _ :: evs' => observe en evs'
  end.

(** The mail went out: [send] returned and the connection was closed
    without error. *)
Definition delivered (evs : trace) : Prop :=
  exists m b, In (EvSend m None) evs /\ In (EvExit None (Normal b)) evs.

(** An exception the block can report: [except Exception] catches it and
    [e.args[0]] exists. *)
Definition reportable (e : exn) : Prop :=
  exc_is_exception e = true /\ exc_args e <> [].

(** What the refinement needs of a backend: it raises only reportable
    exceptions, and its [__exit__] never suppresses one. *)
Class BackendContract `{Backend trace} : Prop := {
  new_reportable : forall d k h e, backend_new d k h = Some e -> reportable e;
  enter_reportable : forall h e, backend_enter h = Some e -> reportable e;
  send_reportable : forall m h e, backend_send m h = Some e -> reportable e;
  exit_reportable : forall oe h e, backend_exit oe h = Raise e -> reportable e;
  exit_no_suppress : forall oe h, backend_exit oe h <> Normal true
}.

(** ** Lemmas *)

Lemma decode_ok en sig : decode en (get_output_signal en success_data sig) = Some ResultOk.
Proof.
  unfold decode, success_data, error_data.
  rewrite !(payload_get_output _ _ _ _ _ (result_data_wf _ _)) by reflexivity.
  reflexivity.
Qed.

Lemma decode_err en sig v :
  decode en (get_output_signal en (error_data v) sig) = Some (ResultErr v).
Proof.
  unfold decode, success_data, error_data.
  rewrite !(payload_get_output _ _ _ _ _ (result_data_wf _ _)) by reflexivity.
  reflexivity.
Qed.

(** The exceptions recorded in a faithful trace of a contract-abiding
    backend are reportable. *)
Ltac recorded_reportable :=
  repeat match goal with
         | H : Some ?e = backend_new _ _ _ |- _ =>
             pose proof (new_reportable _ _ _ _ (eq_sym H)); clear H
         | H : Some ?e = backend_enter _ |- _ =>
             pose proof (enter_reportable _ _ (eq_sym H)); clear H
         | H : Some ?e = backend_send _ _ |- _ =>
             pose proof (send_reportable _ _ _ (eq_sym H)); clear H
         | H : Raise ?e = backend_exit _ _ |- _ =>
             pose proof (exit_reportable _ _ _ (eq_sym H)); clear H
         | H : Normal true = backend_exit _ _ |- _ =>
             destruct (exit_no_suppress _ _ (eq_sym H))
         | H : reportable _ |- _ => destruct H
         end.

Section Refinement.
Context `{Resolver} `{Backend trace} `{Host trace} `{!BackendContract}.

(** A run with resolved properties and a delivering host produces one
    result event allowed by the contract. *)
Lemma run_refines_contract blk sig r tr :
  resolve_fields blk sig = Normal r ->
  (forall s h, notify_signals s h = None) ->
  exists evs ev p, process_signal blk sig tr = (Normal tt, tr ++ evs) /\
    observe (enrich blk) evs = [Some ev] /\ contract_step Pending ev p /\
    (p = Sent <-> delivered evs).
Proof.
  intros Hr Hn. destruct (process_signal_path blk sig tr) as (evs & o & Hrun & Hf & Hp).
  rewrite Hr in Hp.
  destruct Hp as [evs Hb | evs e evs' o Hb Hh];
    [inversion Hb | inversion Hb; inversion Hh]; subst;
    rewrite ?faithful_app in Hf; simpl in Hf; rewrite ?Hn in Hf;
    repeat match goal with H : _ /\ _ |- _ => destruct H end;
    recorded_reportable; subst; cbn [answer] in *; try congruence.
  all: subst; do 3 eexists; split; [exact Hrun|];
    cbn [observe app]; rewrite ?decode_ok, ?decode_err;
    split; [reflexivity|]; split; [first [apply ct_sent | apply ct_failed]|];
    split; intros Hd;
    [ try discriminate; do 2 eexists; split; simpl; auto 10
    | try reflexivity; destruct Hd as (m & b' & Hs & He); simpl in Hs, He;
      intuition congruence ].
Qed.

(** C6. Refinement: when the properties resolve, the host delivers and
    the backend honours [BackendContract], [process_signal] returns
    normally and produces exactly one result event, which the contract
    allows from [Pending]; the run ends [Sent] exactly when the mail
    was delivered, and [Failed] otherwise. *)
Theorem process_signal_refines blk sig r tr :
  resolve_fields blk sig = Normal r ->
  (forall s h, notify_signals s h = None) ->
  exists evs ev p, process_signal blk sig tr = (Normal tt, tr ++ evs) /\
    observe (enrich blk) evs = [Some ev] /\ contract_step Pending ev p /\
    (p = Sent <-> delivered evs).
Proof. exact (run_refines_contract blk sig r tr). Qed.
End Refinement.
