(* ===== verification/Outputs.v ===== *)
(** The signals the block notifies, as a downstream block sees them: what
    [get_output_signal] (the [EnrichSignals] mixin) makes of the result
    dicts of lines 63 and 66 and of the incoming signal.  The theorem: in
    the merge modes the incoming attributes pass through unchanged. *)

From Stdlib Require Import String List ZArith.
From S2P Require Import Prelude PyValue PyStmt NioProperties NioBlock Fluentmail MailGun.
Import ListNotations.

(** ** Lemmas *)

(** A key other than [error] and [message] is absent from a result dict. *)
Lemma result_data_other k v0 v1 :
  k <> "error"%string -> k <> "message"%string ->
  dict_get k (rev [("error"%string, v0); ("message"%string, v1)]) = None.
Proof.
  intros He Hm. simpl.
  apply String.eqb_neq in He, Hm. now rewrite Hm, He.
Qed.

(** In the merge modes, an attribute the result does not write keeps its
    incoming value. *)
Lemma get_output_signal_keeps en v0 v1 incoming k :
  exclude_existing en = false ->
  k <> "error"%string -> k <> "message"%string -> k <> enrich_field en ->
  sig_get k (get_output_signal en [("error"%string, v0); ("message"%string, v1)] incoming) =
  sig_get k incoming.
Proof.
  intros Hx He Hm Hf. unfold get_output_signal, sig_get. rewrite Hx.
  destruct (String.eqb (enrich_field en) ""); cbn [sig_attrs].
  - rewrite dict_get_update, result_data_other by assumption. reflexivity.
  - apply dict_get_set_ne. congruence.
Qed.

Section Outputs.
Context `{Resolver} `{Backend trace} `{Host trace}.
Variables (blk : MailGun) (sig : signal).

(** C18. With [exclude_existing] off, every signal a run notifies carries
    each attribute of the incoming signal that the result does not
    write ([error], [message], or the [enrich_field]) unchanged. *)
Theorem process_signal_keeps_incoming tr :
  exclude_existing (enrich blk) = false ->
  exists evs o, process_signal blk sig tr = (o, tr ++ evs) /\
    forall s rn k, In (EvNotify s rn) evs ->
      k <> "error"%string -> k <> "message"%string -> k <> enrich_field (enrich blk) ->
      sig_get k s = sig_get k sig.
Proof.
  intros Hx. destruct (process_signal_path blk sig tr) as (evs & o & Hrun & _ & Hp).
  exists evs, o. split; [exact Hrun|]. intros s rn k Hin He Hm Hf.
  destruct (resolve_fields blk sig) as [r|e].
  - destruct (try_path_notified _ _ _ _ _ _ _ Hp Hin) as [->|[v ->]];
      now apply get_output_signal_keeps.
  - destruct Hp as [-> _]. destruct Hin.
Qed.
End Outputs.
