(* ===== verification/Runs.v ===== *)
(** Further properties of whole runs of [process_signal]: the number of
    effects of a run is bounded; with [exclude_existing] on, a run
    depends on the signal only through the values its templates resolve
    to; the paths where the backend fails at construction or at
    [__exit__]; and the send of a message without [To] recipient, which
    nothing in the handler prevents. *)

From Stdlib Require Import String List Arith ZArith Lia.
From S2P Require Import Prelude PyValue PyStmt NioProperties NioBlock Fluentmail MailGun Connection.
Import ListNotations.

(** ** Lemmas *)

(** The effects of every path of the [try] statement. *)
Lemma try_path_bounds en sig r evs o :
  try_path en sig r evs o -> length evs <= 6 /\ countb is_notify evs <= 2.
Proof.
  intros Hp. destruct Hp as [evs Hb | evs e evs' o Hb Hh];
    [inversion Hb | inversion Hb; inversion Hh]; subst;
    unfold countb; simpl; lia.
Qed.

Section Runs.
Context `{Resolver} `{Backend trace} `{Host trace}.

(** The effects of any run: at most one send, two notifications and six
    calls. *)
Lemma process_signal_run_bounds blk sig tr evs o :
  process_signal blk sig tr = (o, tr ++ evs) ->
  countb is_send evs <= 1 /\ countb is_notify evs <= 2 /\ length evs <= 6.
Proof.
  intros Hrun'. destruct (process_signal_path blk sig tr) as (evs' & o' & Hrun & _ & Hp).
  rewrite Hrun in Hrun'. injection Hrun' as _ Hevs. apply app_inv_head in Hevs. subst evs'.
  destruct (process_signal_conn _ _ _ _ _ Hrun) as (cn & _ & _ & Hs & _).
  destruct (resolve_fields blk sig) as [r|e].
  - destruct (try_path_bounds _ _ _ _ _ Hp). lia.
  - destruct Hp as [-> _]. unfold countb. simpl. lia.
Qed.

(** C19. Bounds: a run performs at most six calls to its collaborators
    (constructor, [__enter__], [send], [__exit__] and two
    notifications), and notifies at most two signals. *)
Theorem process_signal_effects_bounded blk sig tr :
  exists evs o, process_signal blk sig tr = (o, tr ++ evs) /\
    length evs <= 6 /\ countb is_notify evs <= 2.
Proof.
  destruct (process_signal_path blk sig tr) as (evs & o & Hrun & _ & Hp).
  exists evs, o. split; [exact Hrun|].
  destruct (resolve_fields blk sig) as [r|e].
  - exact (try_path_bounds _ _ _ _ _ Hp).
  - destruct Hp as [-> _]. unfold countb. simpl. lia.
Qed.

(** C20. Equivalence: when the mixin excludes the incoming signal, two
    signals whose templates resolve to the same values give the same run:
    the same effects and the same outcome. *)
Theorem process_signal_resolved_equiv blk sig1 sig2 tr :
  exclude_existing (enrich blk) = true ->
  resolve_fields blk sig1 = resolve_fields blk sig2 ->
  process_signal blk sig1 tr = process_signal blk sig2 tr.
Proof.
  intros Hx Hr. rewrite !process_signal_split, Hr.
  destruct (resolve_fields blk sig2) as [r|e]; [|reflexivity].
  unfold send_and_report, send_body, report_error, get_output_signal. now rewrite Hx.
Qed.

(** C21. When [send] returns but [__exit__] raises an [Exception] whose
    [args] start with [v], the block reports [{error: 1, message: v}] for
    a mail that was handed to the backend. *)
Theorem process_signal_exit_error_after_send blk sig r tr e v vs :
  resolve_fields blk sig = Normal r ->
  (forall h, backend_new (r_api_domain r) (r_api_key r) h = None) ->
  (forall h, backend_enter h = None) ->
  (forall h, backend_send (message_of r) h = None) ->
  (forall h, backend_exit None h = Raise e) ->
  exc_is_exception e = true -> exc_args e = v :: vs ->
  (forall h, notify_signals (get_output_signal (enrich blk) (error_data v) sig) h = None) ->
  process_signal blk sig tr =
  (Normal tt,
   tr ++ [EvBackendNew (r_api_domain r) (r_api_key r) None; EvEnter None;
          EvSend (message_of r) None; EvExit None (Raise e);
          EvNotify (get_output_signal (enrich blk) (error_data v) sig) None]).
Proof. intros Hr. rewrite process_signal_split, Hr. intros. run_block. Qed.

(** C22. When the backend cannot be constructed ([Mailgun(domain, key)]
    raises an [Exception] [e] with [args] [v, ...]), nothing is entered,
    sent or exited, and the block reports [{error: 1, message: v}]. *)
Theorem process_signal_backend_new_error blk sig r tr e v vs :
  resolve_fields blk sig = Normal r ->
  (forall h, backend_new (r_api_domain r) (r_api_key r) h = Some e) ->
  exc_is_exception e = true -> exc_args e = v :: vs ->
  (forall h, notify_signals (get_output_signal (enrich blk) (error_data v) sig) h = None) ->
  process_signal blk sig tr =
  (Normal tt,
   tr ++ [EvBackendNew (r_api_domain r) (r_api_key r) (Some e);
          EvNotify (get_output_signal (enrich blk) (error_data v) sig) None]).
Proof. intros Hr. rewrite process_signal_split, Hr. intros. run_block. Qed.

(** C26. No recipient is required: with an empty [To] list (the default
    of line 16), once the backend is constructed and entered, the block
    still builds a message with no [To] recipient and hands it to
    [send]; nothing in lines 39-61 checks the lists. *)
Theorem process_signal_sends_without_recipients blk sig r tr :
  resolve_fields blk sig = Normal r -> to_recipients (emails blk) = [] ->
  (forall h, backend_new (r_api_domain r) (r_api_key r) h = None) ->
  (forall h, backend_enter h = None) ->
  fm_to (message_of r) = [] /\
  exists evs o, process_signal blk sig tr = (o, tr ++ evs) /\
    In (EvSend (message_of r)
               (@backend_send trace _ (message_of r)
                  (tr ++ [EvBackendNew (r_api_domain r) (r_api_key r) None; EvEnter None]))) evs.
Proof.
  intros Hr Hto Hn He. split.
  - apply resolve_fields_normal in Hr. destruct Hr as (_ & _ & _ & _ & _ & _ & Hc & _).
    rewrite Hto in Hc. simpl in Hc. injection Hc as Hc. simpl. congruence.
  - rewrite process_signal_split, Hr. run_steps. rewrite <- !app_assoc. simpl.
    repeat (match goal with
            | |- context [answer ?x] => destruct x eqn:?
            | |- context [match ?x with Normal _ => _ | Raise _ => _ end] => destruct x eqn:?
            | |- context [if ?b then _ else _] => destruct b
            end; cbn beta iota zeta delta [pret praise answer]);
      eexists; eexists; (split; [repeat rewrite <- app_assoc; reflexivity | simpl; auto 6]).
Qed.
End Runs.
