(* ===== verification/Resumption.v ===== *)
(** [process_signal] as a resumption: a program that stops at every call
    to a collaborator ([PCall]) and resumes with the answer, in the style
    of a free monad over the block's requests.  This is the view the host
    has when it runs several invocations at once (spec section 5): each
    invocation is a thread that advances one collaborator call at a time
    ([Pool]).  [run_prog] runs a program sequentially against a backend
    and a host; [process_signal_prog] is lines 32-66 written with the
    program combinators, and running it is [process_signal]
    ([process_signal_prog_implements]): this is the bridge by which the
    theorems of [Pool] speak of [process_signal].  The relation
    [prog_path] lists the effects a program can produce for some answers,
    and the oracle collaborators built from a path realise it. *)

From Stdlib Require Import String List Arith Lia.
From S2P Require Import Prelude PyValue PyStmt NioProperties NioBlock Fluentmail MailGun.
Import ListNotations.

(** ** Requests and answers *)

(** The calls the handler makes to its collaborators. *)
Inductive req :=
| QNew (d k : pyval)
| QEnter
| QSend (m : FluentMessage)
| QExit (oe : option exn)
| QNotify (s : signal).

(** What a call answers: [__exit__] returns whether to suppress or
    raises; every other call returns nothing or raises. *)
Definition ans (q : req) : Type :=
  match q with QExit _ => outcome exn bool | _ => option exn end.

(** The event of a call and its answer. *)
Definition record (q : req) : ans q -> event :=
  match q return ans q -> event with
  | QNew d k => EvBackendNew d k
  | QEnter => EvEnter
  | QSend m => EvSend m
  | QExit oe => EvExit oe
  | QNotify s => EvNotify s
  end.

(** The answer an event records, read as an answer to [q]. *)
Definition recorded (q : req) (ev : event) : option (ans q) :=
  match q return option (ans q) with
  | QNew _ _ => match ev with EvBackendNew _ _ r => Some r | _ => None end
  | QEnter => match ev with EvEnter r => Some r | _ => None end
  | QSend _ => match ev with EvSend _ r => Some r | _ => None end
  | QExit _ => match ev with EvExit _ r => Some r | _ => None end
  | QNotify _ => match ev with EvNotify _ r => Some r | _ => None end
  end.

(** ** Programs *)

Inductive prog (A : Type) : Type :=
| PRet (o : outcome exn A)
| PCall (q : req) (k : ans q -> prog A).
Arguments PRet {A} o.
Arguments PCall {A} q k.

(** Continue with [f] applied to the outcome of [p]. *)
Fixpoint handleP {A B} (p : prog A) (f : outcome exn A -> prog B) : prog B :=
  match p with
  | PRet o => f o
  | PCall q k => PCall q (fun a => handleP (k a) f)
  end.

Definition bindP {A B} (p : prog A) (g : A -> prog B) : prog B :=
  handleP p (fun o => match o with Normal a => g a | Raise e => PRet (Raise e) end).

(** The handler's calls. *)
Definition newP (d k : pyval) : prog unit := PCall (QNew d k) (fun r => PRet (answer r)).
Definition enterP : prog unit := PCall QEnter (fun r => PRet (answer r)).
Definition sendP (m : FluentMessage) : prog unit := PCall (QSend m) (fun r => PRet (answer r)).
Definition exitP (oe : option exn) : prog bool := PCall (QExit oe) PRet.
Definition notifyP (s : signal) : prog unit := PCall (QNotify s) (fun r => PRet (answer r)).

(** [try: body  except C as e: handler(e)]. *)
Definition tryP {A} (catches : exn -> bool) (body : prog A) (handler : exn -> prog A) : prog A :=
  handleP body (fun o => match o with
                         | Normal a => PRet (Normal a)
                         | Raise e => if catches e then handler e else PRet (Raise e)
                         end).

(** The [with] statement, as [py_with] expands it. *)
Definition withP {Mgr V} (mgr : prog Mgr) (enter : Mgr -> prog V)
           (exit : Mgr -> option exn -> prog bool) (body : V -> prog unit) : prog unit :=
  bindP mgr (fun m => bindP (enter m) (fun v =>
    handleP (body v) (fun o => match o with
      | Normal _ => bindP (exit m None) (fun _ => PRet (Normal tt))
      | Raise e => handleP (exit m (Some e)) (fun r => PRet (match r with
                     | Normal true => Normal tt
                     | Normal false => Raise e
                     | Raise e2 => Raise e2
                     end))
      end))).

(** [xs = acc; for r in rs: xs.append(f(r))]. *)
Fixpoint forP {R B} (f : R -> prog B) (rs : list R) (acc : list B) : prog (list B) :=
  match rs with
  | [] => PRet (Normal acc)
  | r :: rs' => bindP (f r) (fun v => forP f rs' (acc ++ [v]))
  end.

(** ** Running a program *)

Section Run.
Context `{Backend trace} `{Host trace}.

(** The answer of the collaborators to [q] at the history [h]. *)
Definition ask (q : req) (h : trace) : ans q :=
  match q return ans q with
  | QNew d k => backend_new d k h
  | QEnter => backend_enter h
  | QSend m => backend_send m h
  | QExit oe => backend_exit oe h
  | QNotify s => notify_signals s h
  end.

(** Run a program sequentially, recording every call with its answer. *)
Fixpoint run_prog {A} (p : prog A) (tr : trace) : outcome exn A * trace :=
  match p with
  | PRet o => (o, tr)
  | PCall q k => let a := ask q tr in run_prog (k a) (tr ++ [record q a])
  end.

(** [p] computes what the state transformer [m] computes, from every
    history. *)
Definition implements {A} (p : prog A) (m : PyM exn trace A) : Prop :=
  forall tr, run_prog p tr = m tr.

Lemma run_prog_handle {A B} (p : prog A) (f : outcome exn A -> prog B) tr :
  run_prog (handleP p f) tr = let (o, tr') := run_prog p tr in run_prog (f o) tr'.
Proof. revert tr. induction p as [o|q k IH]; intros tr; [reflexivity | apply IH]. Qed.

Lemma implements_ret {A} (o : outcome exn A) : implements (PRet o) (plift o).
Proof. intros tr. now destruct o. Qed.

Lemma implements_bind {A B} (p : prog A) m (g : A -> prog B) f :
  implements p m -> (forall a, implements (g a) (f a)) -> implements (bindP p g) (pbind m f).
Proof.
  intros Hp Hg tr. unfold bindP, pbind. rewrite run_prog_handle, Hp.
  destruct (m tr) as [[a|e] tr']; [apply Hg | reflexivity].
Qed.

Lemma implements_try {A} catches (body : prog A) bm handler hm :
  implements body bm -> (forall e, implements (handler e) (hm e)) ->
  implements (tryP catches body handler) (py_try catches bm hm).
Proof.
  intros Hb Hh tr. unfold tryP, py_try. rewrite run_prog_handle, Hb.
  destruct (bm tr) as [[a|e] tr']; [reflexivity|]. destruct (catches e); [apply Hh | reflexivity].
Qed.

Lemma implements_with {Mgr V} (mgr : prog Mgr) mm (enter : Mgr -> prog V) em exit xm body bm :
  implements mgr mm -> (forall m, implements (enter m) (em m)) ->
  (forall m oe, implements (exit m oe) (xm m oe)) -> (forall v, implements (body v) (bm v)) ->
  implements (withP mgr enter exit body) (py_with mm em xm bm).
Proof.
  intros Hm He Hx Hb. unfold withP, py_with.
  apply implements_bind; [exact Hm | intros m]. apply implements_bind; [apply He | intros v tr].
  rewrite run_prog_handle, Hb. destruct (bm v tr) as [[u|e] tr1].
  - apply implements_bind; [apply Hx | intros b tr2; reflexivity].
  - rewrite run_prog_handle, Hx. now destruct (xm m (Some e) tr1) as [[[|]|e2] tr2].
Qed.

Lemma implements_for {R B} (f : R -> prog B) fm rs acc :
  (forall r, implements (f r) (fm r)) -> implements (forP f rs acc) (for_append fm rs acc).
Proof.
  intros Hf. revert acc. induction rs as [|r rs IH]; intros acc; [intros tr; reflexivity|].
  apply implements_bind; [apply Hf | intros v; apply IH].
Qed.

Lemma implements_new d k : implements (newP d k) (MailgunBackend d k).
Proof. intros tr. reflexivity. Qed.

Lemma implements_enter : implements enterP backend_enter_call.
Proof. intros tr. reflexivity. Qed.

Lemma implements_send m : implements (sendP m) (msg_send m).
Proof. intros tr. reflexivity. Qed.

Lemma implements_exit oe : implements (exitP oe) (backend_exit_call oe).
Proof. intros tr. reflexivity. Qed.

Lemma implements_notify s : implements (notifyP s) (notify s).
Proof. intros tr. reflexivity. Qed.
End Run.

Create HintDb resumption discriminated.
#[export] Hint Resolve implements_ret implements_bind implements_try implements_with
  implements_for implements_new implements_enter implements_send implements_exit
  implements_notify : resumption.

(** ** The handler as a program *)

Section Block.
Context `{Resolver}.

(** Lines 53-63. *)
Definition send_body_prog (blk : MailGun) (sig : signal) (r : Resolved) : prog unit :=
  bindP (withP (newP (r_api_domain r) (r_api_key r)) (fun _ => enterP)
               (fun _ oe => exitP oe) (fun _ => sendP (message_of r)))
        (fun _ => notifyP (get_output_signal (enrich blk) success_data sig)).

(** Lines 65-66. *)
Definition report_error_prog (blk : MailGun) (sig : signal) (e : exn) : prog unit :=
  bindP (PRet (args0 e)) (fun m => notifyP (get_output_signal (enrich blk) (error_data m) sig)).

(** Lines 52-66. *)
Definition send_and_report_prog (blk : MailGun) (sig : signal) (r : Resolved) : prog unit :=
  tryP catches_Exception (send_body_prog blk sig r) (report_error_prog blk sig).

(** Lines 43-50, one loop. *)
Definition resolve_recipients_prog (rs : list Recipient) (sig : signal) : prog (list pyval) :=
  forP (fun rc => PRet (resolve_str (recip rc) sig)) rs [].

(** Lines 32-66. *)
Definition process_signal_prog (blk : MailGun) (sig : signal) : prog unit :=
  bindP (PRet (resolve (api_domain (creds blk)) sig)) (fun _api_domain =>
  bindP (PRet (resolve (api_key (creds blk)) sig)) (fun _api_key =>
  bindP (PRet (resolve_str (text (message blk)) sig)) (fun _text =>
  bindP (PRet (resolve_str (html (message blk)) sig)) (fun _html =>
  bindP (PRet (resolve_str (subject (message blk)) sig)) (fun _subject =>
  bindP (PRet (resolve_str (sender (emails blk)) sig)) (fun _sender =>
  bindP (resolve_recipients_prog (to_recipients (emails blk)) sig) (fun _to_recipients =>
  bindP (resolve_recipients_prog (cc_recipients (emails blk)) sig) (fun _cc_recipients =>
  bindP (resolve_recipients_prog (bcc_recipients (emails blk)) sig) (fun _bcc_recipients =>
  send_and_report_prog blk sig
    (mk_Resolved _api_domain _api_key _text _html _subject _sender
                 _to_recipients _cc_recipients _bcc_recipients)))))))))).
End Block.

Section Equiv.
Context `{Resolver} `{Backend trace} `{Host trace}.

Lemma send_and_report_prog_implements blk sig r :
  implements (send_and_report_prog blk sig r) (send_and_report blk sig r).
Proof.
  unfold send_and_report_prog, send_and_report, send_body_prog, send_body,
    report_error_prog, report_error.
  auto 10 with resumption.
Qed.

Lemma process_signal_prog_implements blk sig :
  implements (process_signal_prog blk sig) (process_signal blk sig).
Proof.
  unfold process_signal_prog, process_signal, resolve_recipients_prog, resolve_recipients.
  auto 20 using send_and_report_prog_implements with resumption.
Qed.

End Equiv.

(** ** Number of calls *)

(** [p] makes at most [n] calls, whatever the answers. *)
Inductive calls_within {A} : nat -> prog A -> Prop :=
| within_ret n o : calls_within n (PRet o)
| within_call n q k : (forall a, calls_within n (k a)) -> calls_within (S n) (PCall q k).
#[export] Hint Constructors calls_within : resumption.

(** Inversion for a waiting program, without identifying the
    continuations by an axiom. *)
Lemma within_call_inv {A} n q (k : ans q -> prog A) :
  calls_within n (PCall q k) -> exists m, n = S m /\ forall a, calls_within m (k a).
Proof.
  intros Hw.
  refine (match Hw in calls_within n p
                return match p with
                       | PCall q k => exists m, n = S m /\ forall a, calls_within m (k a)
                       | PRet _ => True
                       end with
          | within_ret _ _ => I
          | within_call m q k Hk => ex_intro _ m (conj eq_refl Hk)
          end).
Qed.

Lemma within_mono {A} n m (p : prog A) : calls_within n p -> n <= m -> calls_within m p.
Proof.
  intros Hp. revert m. induction Hp as [n o|n q k Hk IH]; intros m Hm; [constructor|].
  destruct m as [|m]; [lia|]. constructor. intros a. apply IH. lia.
Qed.

Lemma within_handle {A B} n m (p : prog A) (f : outcome exn A -> prog B) :
  calls_within n p -> (forall o, calls_within m (f o)) -> calls_within (n + m) (handleP p f).
Proof.
  intros Hp Hf. induction Hp as [n o|n q k Hk IH]; simpl.
  - apply within_mono with m; [apply Hf | lia].
  - constructor. exact IH.
Qed.

Lemma within_bind {A B} n m (p : prog A) (g : A -> prog B) :
  calls_within n p -> (forall a, calls_within m (g a)) -> calls_within (n + m) (bindP p g).
Proof. intros Hp Hg. apply within_handle; [exact Hp | intros [a|e]; auto with resumption]. Qed.

(** A pure step followed by [g] makes the calls of [g]. *)
Lemma within_bind_pure {A B} n (o : outcome exn A) (g : A -> prog B) :
  (forall a, calls_within n (g a)) -> calls_within n (bindP (PRet o) g).
Proof. intros Hg. unfold bindP. destruct o; simpl; auto with resumption. Qed.

Lemma within_try {A} n m catches (body : prog A) handler :
  calls_within n body -> (forall e, calls_within m (handler e)) ->
  calls_within (n + m) (tryP catches body handler).
Proof.
  intros Hb Hh. apply within_handle; [exact Hb|].
  intros [a|e]; [|destruct (catches e)]; auto with resumption.
Qed.

Lemma within_with {Mgr V} a b c d (mgr : prog Mgr) (enter : Mgr -> prog V) exit body :
  calls_within a mgr -> (forall m, calls_within b (enter m)) ->
  (forall m oe, calls_within d (exit m oe)) -> (forall v, calls_within c (body v)) ->
  calls_within (a + (b + (c + d))) (withP mgr enter exit body).
Proof.
  intros Hm He Hx Hb. apply within_bind; [exact Hm | intros m].
  apply within_bind; [apply He | intros v]. apply within_handle; [apply Hb|].
  intros [u|e]; rewrite <- (Nat.add_0_r d).
  - apply within_bind; auto with resumption.
  - apply within_handle; auto with resumption.
Qed.

(** A loop over pure element computations makes no call. *)
Lemma forP_pure {R B} (g : R -> outcome exn B) rs acc :
  forP (fun r => PRet (g r)) rs acc =
  PRet (match collect g rs with Normal vs => Normal (acc ++ vs) | Raise e => Raise e end).
Proof.
  revert acc. induction rs as [|r rs IH]; intros acc; simpl; [now rewrite app_nil_r|].
  destruct (g r) as [v|e]; [|reflexivity]. cbn. rewrite IH.
  destruct (collect g rs); [now rewrite <- app_assoc | reflexivity].
Qed.

Lemma calls_one {A} q (k : ans q -> prog A) :
  (forall a, exists o, k a = PRet o) -> calls_within 1 (PCall q k).
Proof. intros Hk. constructor. intros a. destruct (Hk a) as [o ->]. constructor. Qed.

Section Bound.
Context `{Resolver}.

(** The handler makes at most six calls: the constructor, [__enter__],
    [send], [__exit__] and two notifications. *)
Lemma process_signal_prog_within blk sig : calls_within 6 (process_signal_prog blk sig).
Proof.
  unfold process_signal_prog, resolve_recipients_prog, send_and_report_prog, send_body_prog,
    report_error_prog, newP, enterP, sendP, exitP, notifyP.
  rewrite !forP_pure.
  repeat (apply within_bind_pure; intros).
  apply (within_try 5 1).
  - apply (within_bind 4 1); [apply (within_with 1 1 1 1) | intros]; intros;
      apply calls_one; eexists; reflexivity.
  - intros e. apply within_bind_pure. intros. apply calls_one. eexists; reflexivity.
Qed.
End Bound.

(** ** Paths of a program *)

(** [p] can perform the calls [evs], each with its answer, and end with
    [o]. *)
Inductive prog_path {A} : prog A -> trace -> outcome exn A -> Prop :=
| path_ret o : prog_path (PRet o) [] o
| path_call q k a evs o : prog_path (k a) evs o -> prog_path (PCall q k) (record q a :: evs) o.

(** The answer of a collaborator that has no recorded answer. *)
Definition dflt (q : req) : ans q :=
  match q return ans q with QExit _ => Normal false | _ => None end.

(** Collaborators that answer the [n]-th call as the [n]-th event of
    [evs] records. *)
Definition oracle_ans (evs : trace) (q : req) (h : trace) : ans q :=
  match nth_error evs (length h) with
  | Some ev => match recorded q ev with Some a => a | None => dflt q end
  | None => dflt q
  end.

Definition oracle_backend (evs : trace) : Backend trace :=
  {| backend_new d k h := oracle_ans evs (QNew d k) h;
     backend_enter h := oracle_ans evs QEnter h;
     backend_send m h := oracle_ans evs (QSend m) h;
     backend_exit oe h := oracle_ans evs (QExit oe) h |}.

Definition oracle_host (evs : trace) : Host trace :=
  {| notify_signals s h := oracle_ans evs (QNotify s) h |}.

(** Reading back the answer of a recorded call. *)
Lemma recorded_record q a : recorded q (record q a) = Some a.
Proof. destruct q; reflexivity. Qed.

Lemma oracle_ask evs q h : @ask (oracle_backend evs) (oracle_host evs) q h = oracle_ans evs q h.
Proof. destruct q; reflexivity. Qed.

(** Every path is a run: against the oracle of the path, the program
    performs the path's calls and ends with its outcome. *)
Lemma prog_path_realised {A} (p : prog A) evs o pre :
  prog_path p evs o ->
  @run_prog (oracle_backend (pre ++ evs)) (oracle_host (pre ++ evs)) _ p pre = (o, pre ++ evs).
Proof.
  intros Hp. revert pre. induction Hp as [o|q k a evs o Hp IH]; intros pre.
  - now rewrite app_nil_r.
  - cbn [run_prog]. rewrite oracle_ask. unfold oracle_ans.
    rewrite nth_error_app2, Nat.sub_diag by lia. cbn. rewrite recorded_record.
    specialize (IH (pre ++ [record q a])). rewrite <- !app_assoc in IH. exact IH.
Qed.
