(* ===== verification/Pool.v ===== *)
(** Concurrent invocations of the handler.  The spec (section 5) leaves
    the scheduling to the host: [process_signal] may run once per inbound
    signal, sequentially or concurrently, and the block keeps no shared
    state.  A [pool] holds one thread per invocation, each a resumption of
    [process_signal_prog], and the log of every call made so far, tagged
    with the thread that made it.  A step advances one thread by one call;
    the collaborators answer as functions of the whole log, so they may
    couple the threads.  A schedule is the list of threads stepped, in
    order ([pool_run]).  Each finished invocation made the calls of a
    sequential run of [process_signal] ([pool_finished_run]), which
    carries the per-run theorems over to concurrent executions.

    The theorems show that every schedule stops within six steps per
    invocation (C23), that each finished invocation released its
    connection and sent at most once (C24) and, with a delivering host,
    notified one result or let an uncaught exception escape (C27) and,
    under the backend contract too, produced exactly the contract's
    event (C28); at every point, each invocation has sent at most once,
    notified at most twice and made at most six calls (C29). *)

From Stdlib Require Import String List Arith Lia.
From S2P Require Import Prelude PyValue PyStmt NioProperties NioBlock Fluentmail MailGun Connection Contract Runs Resumption.
Import ListNotations.

(** ** Pools *)

Definition tid := nat.

(** The calls of all threads, in the order they happened. *)
Definition gtrace := list (tid * event).

Record pool := mk_pool {
  threads : list (prog unit);
  log : gtrace
}.

(** The calls of thread [i], in order. *)
Fixpoint proj (i : tid) (g : gtrace) : trace :=
  match g with
  | [] => []
  | (j, ev) :: g' => if Nat.eqb i j then ev :: proj i g' else proj i g'
  end.

(** [l] with its [i]-th element replaced (unchanged out of range). *)
Fixpoint replace_nth {A} (i : nat) (x : A) (l : list A) : list A :=
  match l, i with
  | [], _ => []
  | _ :: l', 0 => x :: l'
  | y :: l', S i' => y :: replace_nth i' x l'
  end.

Section Sched.
Context `{Backend trace} `{Host trace}.

(** Step thread [i]: its pending call is answered at the history of all
    threads, and recorded under [i].  A finished thread cannot step. *)
Definition pool_next (c : pool) (i : tid) : option pool :=
  match nth_error (threads c) i with
  | Some (PCall q k) =>
      let a := ask q (map snd (log c)) in
      Some (mk_pool (replace_nth i (k a) (threads c)) (log c ++ [(i, record q a)]))
  | _ => None
  end.

(** Run a schedule: [None] if it steps a thread that cannot step. *)
Fixpoint pool_run (sched : list tid) (c : pool) : option pool :=
  match sched with
  | [] => Some c
  | i :: sched' => match pool_next c i with Some c' => pool_run sched' c' | None => None end
  end.

End Sched.

(** The calls of a thread are calls of the log. *)
Lemma proj_In i g ev : In ev (proj i g) -> In (i, ev) g.
Proof.
  induction g as [|[j ev'] g IH]; simpl; [easy|].
  destruct (Nat.eqb_spec i j) as [->|_]; simpl; intros Hin; [destruct Hin as [<-|Hin]|]; auto.
Qed.

(** A notification that returned. *)
Definition delivered_notify (ev : event) : Prop :=
  match ev with EvNotify _ res => res = None | _ => True end.

(** The oracle of calls whose notifications all returned is a host
    that delivers every signal. *)
Lemma oracle_host_delivers evs :
  Forall delivered_notify evs -> forall s h, @notify_signals trace (oracle_host evs) s h = None.
Proof.
  intros Hall s h. simpl. unfold oracle_ans.
  destruct (nth_error evs (length h)) as [ev|] eqn:Hn; [|reflexivity].
  apply nth_error_In in Hn. rewrite Forall_forall in Hall. specialize (Hall ev Hn).
  destruct ev; simpl in *; auto.
Qed.

(** A recorded call whose answer the backend contract allows: raised
    exceptions are reportable, and [__exit__] does not suppress. *)
Definition honours_contract (ev : event) : Prop :=
  match ev with
  | EvBackendNew _ _ (Some e) | EvEnter (Some e) | EvSend _ (Some e) | EvExit _ (Raise e) =>
      reportable e
  | EvExit _ (Normal true) => False
  | _ => True
  end.

(** The oracle of calls whose answers the contract allows honours the
    contract. *)
Lemma oracle_backend_contract evs :
  Forall honours_contract evs -> @BackendContract (oracle_backend evs).
Proof.
  intros Hall. rewrite Forall_forall in Hall.
  constructor; intros; simpl in *; unfold oracle_ans in *;
    destruct (nth_error evs (length h)) as [ev|] eqn:Hn; simpl in *; try discriminate;
    pose proof (Hall ev (nth_error_In _ _ Hn)) as Hev;
    destruct ev; simpl in *; try discriminate; subst; simpl in *; auto.
  - intros Heq. rewrite Heq in Hev. exact Hev.
Qed.

(** Every path of a program can be followed to its end. *)
Lemma prog_path_exists {A} (p : prog A) : exists evs o, prog_path p evs o.
Proof.
  induction p as [o|q k IH]; [exists [], o; constructor|].
  destruct (IH (dflt q)) as (evs & o & Hp). exists (record q (dflt q) :: evs), o. now constructor.
Qed.

(** A property of every recorded call holds of the calls of each
    thread. *)
Lemma proj_Forall (P : event -> Prop) i g :
  Forall (fun x => P (snd x)) g -> Forall P (proj i g).
Proof.
  rewrite !Forall_forall. intros Hall ev Hin. exact (Hall _ (proj_In _ _ _ Hin)).
Qed.

(** One thread per inbound signal, none started. *)
Definition start `{Resolver} (blk : MailGun) (sigs : list signal) : pool :=
  mk_pool (map (process_signal_prog blk) sigs) [].

(** ** List lemmas *)

Lemma nth_error_replace_eq {A} i (x : A) l y :
  nth_error l i = Some y -> nth_error (replace_nth i x l) i = Some x.
Proof. revert i. induction l as [|z l IH]; intros [|i] Hi; simpl in *; auto; discriminate. Qed.

Lemma nth_error_replace_ne {A} i j (x : A) l :
  i <> j -> nth_error (replace_nth j x l) i = nth_error l i.
Proof.
  revert i j. induction l as [|z l IH]; intros [|i] [|j] Hij; simpl; auto; lia.
Qed.

Lemma proj_app i g g' : proj i (g ++ g') = proj i g ++ proj i g'.
Proof. induction g as [|[j ev] g IH]; simpl; [reflexivity|]. destruct (Nat.eqb i j); simpl; now rewrite IH. Qed.

Lemma proj_step_eq i g ev : proj i (g ++ [(i, ev)]) = proj i g ++ [ev].
Proof. rewrite proj_app. simpl. now rewrite Nat.eqb_refl. Qed.

Lemma proj_step_ne i j g ev : i <> j -> proj i (g ++ [(j, ev)]) = proj i g.
Proof.
  intros Hij. rewrite proj_app. simpl. apply Nat.eqb_neq in Hij. rewrite Hij. apply app_nil_r.
Qed.

(** A budget per thread: replacing one by its predecessor lowers the sum
    by one. *)
Lemma list_sum_replace_pred (bs : list nat) i b :
  nth_error bs i = Some (S b) -> list_sum bs = S (list_sum (replace_nth i b bs)).
Proof.
  revert i. induction bs as [|x bs IH]; intros [|i] Hi; simpl in *; try discriminate.
  - injection Hi as ->. lia.
  - rewrite (IH i Hi). lia.
Qed.

Lemma Forall2_nth_r {A B} (P : A -> B -> Prop) l1 l2 i y :
  Forall2 P l1 l2 -> nth_error l2 i = Some y -> exists x, nth_error l1 i = Some x /\ P x y.
Proof.
  intros HF. revert i. induction HF as [|x' y' l1 l2 Hxy HF IH]; intros [|i] Hi; simpl in *;
    try discriminate; [injection Hi as <-; eauto | eauto].
Qed.

Lemma Forall2_replace {A B} (P : A -> B -> Prop) l1 l2 i x y :
  Forall2 P l1 l2 -> P x y -> Forall2 P (replace_nth i x l1) (replace_nth i y l2).
Proof.
  intros HF. revert i. induction HF as [|x' y' l1 l2 Hxy HF IH]; intros [|i] Hp; simpl;
    constructor; auto.
Qed.

(** ** What one thread sees *)

Section Thread.
Context `{Backend trace} `{Host trace}.

(** A relation between a thread's initial program, its current program
    and its own calls so far, preserved by every answer the collaborators
    may give the thread, holds of the thread under every schedule. *)
Section Invariant.
Variable R : prog unit -> prog unit -> trace -> Prop.
Hypothesis R_step : forall p0 q k h g,
  R p0 (PCall q k) h -> R p0 (k (ask q g)) (h ++ [record q (ask q g)]).

Lemma pool_run_thread sched c c' i p0 p :
  pool_run sched c = Some c' -> nth_error (threads c) i = Some p -> R p0 p (proj i (log c)) ->
  exists p', nth_error (threads c') i = Some p' /\ R p0 p' (proj i (log c')).
Proof.
  revert c p. induction sched as [|j sched IH]; intros c p Hrun Hi HR; simpl in Hrun.
  - injection Hrun as <-. eauto.
  - unfold pool_next in Hrun. destruct (nth_error (threads c) j) as [[o|q k]|] eqn:Hj;
      try discriminate.
    destruct (Nat.eq_dec i j) as [->|Hij]; eapply IH; try exact Hrun; simpl.
    + eapply nth_error_replace_eq. exact Hj.
    + rewrite proj_step_eq. rewrite Hj in Hi. injection Hi as <-. apply R_step, HR.
    + rewrite nth_error_replace_ne by exact Hij. exact Hi.
    + rewrite proj_step_ne by exact Hij. exact HR.
Qed.
End Invariant.


(** The calls a thread has made extend to a path of its program. *)
Lemma pool_run_path sched c c' i p0 :
  pool_run sched c = Some c' -> nth_error (threads c) i = Some p0 -> proj i (log c) = [] ->
  exists p', nth_error (threads c') i = Some p' /\
    forall evs o, prog_path p' evs o -> prog_path p0 (proj i (log c') ++ evs) o.
Proof.
  intros Hrun Hi Hnil.
  apply (pool_run_thread (fun p0 p h => forall evs o, prog_path p evs o -> prog_path p0 (h ++ evs) o))
    with (sched := sched) (c := c) (p := p0); auto.
  - intros p q k h g HR evs o Hp. rewrite <- app_assoc. apply HR. now constructor.
  - rewrite Hnil. auto.
Qed.

(** A property of every recorded call that holds of every answer the
    collaborators give holds of the whole log under every schedule. *)
Lemma pool_run_log (P : event -> Prop) sched c c' :
  (forall q h, P (record q (ask q h))) ->
  Forall (fun x => P (snd x)) (log c) -> pool_run sched c = Some c' ->
  Forall (fun x => P (snd x)) (log c').
Proof.
  intros HP. revert c. induction sched as [|j sched IH]; intros c Hc Hrun; simpl in Hrun.
  - injection Hrun as <-. exact Hc.
  - unfold pool_next in Hrun. destruct (nth_error (threads c) j) as [[o|q k]|];
      try discriminate.
    refine (IH _ _ Hrun). simpl. apply Forall_app. split; [exact Hc|].
    constructor; [apply HP | constructor].
Qed.

(** ** Budgets *)

(** Stepping a waiting thread spends one call of its budget. *)
Lemma pool_next_budget bs c i q k :
  Forall2 calls_within bs (threads c) -> nth_error (threads c) i = Some (PCall q k) ->
  exists b c', nth_error bs i = Some (S b) /\ pool_next c i = Some c' /\
    Forall2 calls_within (replace_nth i b bs) (threads c').
Proof.
  intros HF Hi. destruct (Forall2_nth_r _ _ _ _ _ HF Hi) as [b [Hb Hw]].
  destruct (within_call_inv _ _ _ Hw) as [b' [-> Hk]].
  eexists b', _. split; [exact Hb|]. unfold pool_next. rewrite Hi. split; [reflexivity|].
  simpl. apply Forall2_replace; [exact HF | apply Hk].
Qed.

Lemma pool_run_budget bs sched c c' :
  Forall2 calls_within bs (threads c) -> pool_run sched c = Some c' -> length sched <= list_sum bs.
Proof.
  revert bs c. induction sched as [|j sched IH]; intros bs c HF Hrun; simpl; [lia|].
  simpl in Hrun. destruct (nth_error (threads c) j) as [[o|q k]|] eqn:Hj;
    try (unfold pool_next in Hrun; rewrite Hj in Hrun; discriminate).
  destruct (pool_next_budget _ _ _ _ _ HF Hj) as (b & c1 & Hb & Hn & HF1).
  rewrite Hn in Hrun. rewrite (list_sum_replace_pred _ _ _ Hb).
  specialize (IH _ _ HF1 Hrun). lia.
Qed.

End Thread.

Section Invocations.
Context `{Resolver}.

(** Every invocation starts with a budget of six calls. *)
Lemma start_budget blk sigs :
  Forall2 calls_within (map (fun _ => 6) sigs) (threads (start blk sigs)) /\
  list_sum (map (fun _ => 6) sigs) = 6 * length sigs.
Proof.
  induction sigs as [|sig sigs [HF Hs]]; simpl; [split; [constructor | reflexivity]|].
  split; [constructor; [apply process_signal_prog_within | exact HF] | lia].
Qed.

Lemma start_thread blk sigs i sig :
  nth_error sigs i = Some sig -> nth_error (threads (start blk sigs)) i = Some (process_signal_prog blk sig).
Proof. intros Hi. simpl. now rewrite nth_error_map, Hi. Qed.
End Invocations.

(** ** Concurrent invocations *)

Section Concurrent.
Context `{Resolver} `{Backend trace} `{Host trace}.

(** A finished invocation's calls are the run of [process_signal]
    against the collaborators that answer as those calls record. *)
Lemma pool_finished_run blk sigs sched c i sig o :
  pool_run sched (start blk sigs) = Some c -> nth_error sigs i = Some sig ->
  nth_error (threads c) i = Some (PRet o) ->
  @process_signal _ (oracle_backend (proj i (log c))) (oracle_host (proj i (log c))) blk sig [] =
  (o, proj i (log c)).
Proof.
  intros Hrun Hsig Hfin.
  destruct (pool_run_path _ _ _ _ _ Hrun (start_thread blk sigs i sig Hsig) eq_refl)
    as (p & Hp & Hpath).
  rewrite Hfin in Hp. injection Hp as <-.
  specialize (Hpath [] o (path_ret o)). rewrite app_nil_r in Hpath.
  rewrite <- process_signal_prog_implements.
  exact (prog_path_realised _ _ _ [] Hpath).
Qed.

(** C23. Termination: every schedule of [n] concurrent invocations that
    the pool can run has at most [6 n] steps, whatever the collaborators
    answer. *)
Theorem pool_run_bounded blk sigs sched c :
  pool_run sched (start blk sigs) = Some c -> length sched <= 6 * length sigs.
Proof.
  intros Hrun. destruct (start_budget blk sigs) as [HF Hs].
  rewrite <- Hs. exact (pool_run_budget _ _ _ _ HF Hrun).
Qed.

(** C24. Safety of concurrent invocations: under every schedule and
    whatever the collaborators answer, every finished invocation has
    released its connection (or never opened one) and sent its message at
    most once, exiting the backend once per send. *)
Theorem pool_thread_releases blk sigs sched c i sig o :
  pool_run sched (start blk sigs) = Some c -> nth_error sigs i = Some sig ->
  nth_error (threads c) i = Some (PRet o) ->
  exists cn, conn_steps Unopened (proj i (log c)) cn /\ cn <> Opened /\
    countb is_send (proj i (log c)) <= 1 /\
    countb is_send (proj i (log c)) = countb is_exit (proj i (log c)).
Proof.
  intros Hrun Hsig Hfin.
  apply (@process_signal_conn _ (oracle_backend (proj i (log c))) (oracle_host (proj i (log c)))
           blk sig [] _ o).
  exact (pool_finished_run _ _ _ _ _ _ _ Hrun Hsig Hfin).
Qed.

(** With a delivering host, every notification of every thread
    returned. *)
Lemma pool_run_delivered blk sigs sched i c :
  (forall s h, notify_signals s h = None) -> pool_run sched (start blk sigs) = Some c ->
  Forall delivered_notify (proj i (log c)).
Proof.
  intros Hdel Hrun. apply proj_Forall.
  refine (pool_run_log delivered_notify sched (start blk sigs) c _ (Forall_nil _) Hrun).
  intros [] h; simpl; auto.
Qed.

(** With a backend that honours the contract, every answer a thread
    received is one the contract allows. *)
Lemma pool_run_honours `{!BackendContract} blk sigs sched i c :
  pool_run sched (start blk sigs) = Some c -> Forall honours_contract (proj i (log c)).
Proof.
  intros Hrun. apply proj_Forall.
  refine (pool_run_log honours_contract sched (start blk sigs) c _ (Forall_nil _) Hrun).
  intros [d k| |m|oe|s] h; simpl;
    [destruct (backend_new d k h) eqn:E | destruct (backend_enter h) eqn:E
    | destruct (backend_send m h) eqn:E | destruct (backend_exit oe h) as [[|]|e] eqn:E | ];
    simpl; eauto using new_reportable, enter_reportable, send_reportable, exit_reportable.
  exact (exit_no_suppress _ _ E).
Qed.

(** C27. The spec's invariant under concurrency: with a host that
    delivers every signal, under every schedule and whatever the backend
    answers, every finished invocation whose templates resolve either
    notified exactly one result signal and returned, or notified none and
    let escape an exception that [except Exception] does not catch or the
    [IndexError] of [e.args[0]]. *)
Theorem pool_thread_one_result blk sigs sched c i sig o r :
  (forall s h, notify_signals s h = None) -> resolve_fields blk sig = Normal r ->
  pool_run sched (start blk sigs) = Some c -> nth_error sigs i = Some sig ->
  nth_error (threads c) i = Some (PRet o) ->
  (o = Normal tt /\ countb is_notify (proj i (log c)) = 1) \/
  (countb is_notify (proj i (log c)) = 0 /\
   exists e, o = Raise e /\ (exc_is_exception e = false \/ e = IndexError_tuple)).
Proof.
  intros Hdel Hr Hrun Hsig Hfin.
  pose proof (pool_run_delivered _ _ _ i _ Hdel Hrun) as Hproj.
  destruct (@one_result_or_escape _ (oracle_backend (proj i (log c))) (oracle_host (proj i (log c)))
              blk sig r [] Hr (oracle_host_delivers _ Hproj)) as (evs & o' & Hrun' & Hres).
  rewrite (pool_finished_run _ _ _ _ _ _ _ Hrun Hsig Hfin) in Hrun'.
  injection Hrun' as -> ->. exact Hres.
Qed.

(** C28. Refinement of the contract under concurrency: with a host that
    delivers and a backend that honours [BackendContract], under every
    schedule, every finished invocation whose templates resolve returned
    normally, and its own calls produce exactly one result event, which
    the [Pending -> Sent | Failed] contract allows, [Sent] exactly when
    its mail was delivered. *)
Theorem pool_thread_refines `{!BackendContract} blk sigs sched c i sig o r :
  (forall s h, notify_signals s h = None) -> resolve_fields blk sig = Normal r ->
  pool_run sched (start blk sigs) = Some c -> nth_error sigs i = Some sig ->
  nth_error (threads c) i = Some (PRet o) ->
  o = Normal tt /\ exists ev p, observe (enrich blk) (proj i (log c)) = [Some ev] /\
    contract_step Pending ev p /\ (p = Sent <-> delivered (proj i (log c))).
Proof.
  intros Hdel Hr Hrun Hsig Hfin.
  pose proof (pool_run_honours _ _ _ i _ Hrun) as Hc.
  pose proof (pool_run_delivered _ _ _ i _ Hdel Hrun) as Hn.
  destruct (@run_refines_contract _ (oracle_backend (proj i (log c))) (oracle_host (proj i (log c)))
              (oracle_backend_contract _ Hc) blk sig r [] Hr (oracle_host_delivers _ Hn))
    as (evs & ev & p & Hrun' & Hobs).
  rewrite (pool_finished_run _ _ _ _ _ _ _ Hrun Hsig Hfin) in Hrun'.
  injection Hrun' as -> ->. split; [reflexivity|]. eauto.
Qed.

(** C29. Bounds at every point of a concurrent execution: under every
    schedule and whatever the collaborators answer, each invocation,
    finished or not, has so far sent at most once, notified at most two
    signals and made at most six calls. *)
Theorem pool_thread_bounded blk sigs sched c i sig :
  pool_run sched (start blk sigs) = Some c -> nth_error sigs i = Some sig ->
  countb is_send (proj i (log c)) <= 1 /\ countb is_notify (proj i (log c)) <= 2 /\
  length (proj i (log c)) <= 6.
Proof.
  intros Hrun Hsig.
  destruct (pool_run_path _ _ _ _ _ Hrun (start_thread blk sigs i sig Hsig) eq_refl)
    as (p & _ & Hpath).
  destruct (prog_path_exists p) as (evs & o & Hp).
  pose proof (prog_path_realised _ _ _ [] (Hpath evs o Hp)) as Hreal.
  rewrite process_signal_prog_implements in Hreal.
  destruct (process_signal_run_bounds _ _ _ _ _ Hreal) as (Hs & Hno & Hl).
  rewrite countb_app in Hs, Hno. rewrite length_app in Hl. lia.
Qed.
End Concurrent.
