(* ===== verification/ProgEquiv.v ===== *)
(** Equivalence of resumptions.  Two programs are equivalent ([peq]) when
    they make the same call at every point and, for every answer, continue
    equivalently: equality up to the extensionality of continuations, the
    shallow bisimilarity of a free monad.  [peq] is an [Equivalence], the
    binding combinators of [Resumption] are [Proper] for it, so
    [setoid_rewrite] rewrites under the binders of a program.  With it,
    the handler is a resolution that makes no call followed by the [try]
    statement ([process_signal_prog_split]), and the theorem shows that,
    under every schedule, an invocation whose resolution raises makes no
    call at all (C25). *)

From Stdlib Require Import String List Arith Lia Morphisms RelationClasses.
From S2P Require Import Prelude PyValue PyStmt NioProperties NioBlock Fluentmail MailGun Resumption Pool.
Import ListNotations.

(** ** The equivalence *)

Inductive peq {A} : prog A -> prog A -> Prop :=
| peq_ret o : peq (PRet o) (PRet o)
| peq_call q k1 k2 : (forall a, peq (k1 a) (k2 a)) -> peq (PCall q k1) (PCall q k2).
#[export] Hint Constructors peq : resumption.

(** Inversion for a waiting program, without identifying continuations
    by an axiom: the request is the same, and the continuations agree up
    to the transport along it. *)
Lemma peq_call_inv {A} q k1 (p2 : prog A) :
  peq (PCall q k1) p2 ->
  match p2 with
  | PRet _ => False
  | PCall q2 k2 => exists e : q = q2, forall a, peq (k1 a) (k2 (eq_rect q ans a q2 e))
  end.
Proof.
  intros H.
  refine (match H in peq p1 p2
                return match p1, p2 with
                       | PCall q1 k1', PCall q2 k2 =>
                           exists e : q1 = q2, forall a, peq (k1' a) (k2 (eq_rect q1 ans a q2 e))
                       | PRet _, PRet _ => True
                       | _, _ => False
                       end with
          | peq_ret o => I
          | peq_call q k1 k2 Hk => ex_intro _ eq_refl Hk
          end).
Qed.

#[export] Instance peq_Reflexive {A} : Reflexive (@peq A).
Proof. intros p. induction p; constructor; auto. Qed.

#[export] Instance peq_Symmetric {A} : Symmetric (@peq A).
Proof. intros p1 p2 H. induction H; constructor; auto. Qed.

#[export] Instance peq_Transitive {A} : Transitive (@peq A).
Proof.
  intros p1 p2 p3 H12. revert p3. induction H12 as [o|q k1 k2 Hk IH]; intros p3 H23; [exact H23|].
  apply peq_call_inv in H23. destruct p3 as [o|q3 k3]; [contradiction|].
  destruct H23 as [e Hk3]. subst q3. constructor. intros a. apply IH, Hk3.
Qed.

#[export] Instance peq_Equivalence {A} : Equivalence (@peq A) := {}.

(** Equal programs are equivalent, so equations rewrite inside [peq]. *)
#[export] Instance eq_peq_subrelation {A} : subrelation eq (@peq A).
Proof. intros p ? <-. reflexivity. Qed.

(** ** The combinators respect it *)

#[export] Instance handleP_Proper {A B} :
  Proper (peq ==> pointwise_relation _ peq ==> peq) (@handleP A B).
Proof.
  intros p1 p2 Hp f1 f2 Hf. induction Hp; simpl; [apply Hf | constructor; auto].
Qed.

#[export] Instance bindP_Proper {A B} :
  Proper (peq ==> pointwise_relation _ peq ==> peq) (@bindP A B).
Proof.
  intros p1 p2 Hp g1 g2 Hg. unfold bindP. apply handleP_Proper; [exact Hp|].
  intros [a|e]; [apply Hg | reflexivity].
Qed.

(** ** The handler resolves before it calls *)

Section Split.
Context `{Resolver}.

(** The handler as the spec decomposes it: resolve every field, then run
    the [try] statement. *)
Definition resolved_then_try (blk : MailGun) (sig : signal) : prog unit :=
  bindP (PRet (resolve_fields blk sig)) (send_and_report_prog blk sig).

(** The resolution of lines 33-50, bound statement by statement, is the
    pure [resolve_fields]. *)
Lemma process_signal_prog_split blk sig :
  peq (process_signal_prog blk sig) (resolved_then_try blk sig).
Proof.
  unfold process_signal_prog, resolved_then_try, resolve_recipients_prog, resolve_fields.
  setoid_rewrite forP_pure. cbn [bindP handleP app].
  repeat match goal with
         | |- context [resolve ?t sig] => destruct (resolve t sig)
         | |- context [resolve_str ?t sig] => destruct (resolve_str t sig)
         | |- context [collect ?f ?rs] => destruct (collect f rs)
         end; cbn [bindP handleP app]; reflexivity.
Qed.

End Split.

Section Concurrent.
Context `{Resolver} `{Backend trace} `{Host trace}.

(** A program equivalent to a result is that result. *)
Lemma peq_ret_inv {A} (p : prog A) o : peq p (PRet o) -> p = PRet o.
Proof. intros Hp. inversion Hp. reflexivity. Qed.

(** C25. Resolution errors under concurrency: under every schedule and
    whatever the collaborators answer, an invocation whose templates
    raise [e] while resolving has finished from the start with [e]
    escaping, and has made no call: no backend, no notification. *)
Theorem pool_resolution_error_silent blk sigs sched c i sig e :
  resolve_fields blk sig = Raise e ->
  pool_run sched (start blk sigs) = Some c -> nth_error sigs i = Some sig ->
  nth_error (threads c) i = Some (PRet (Raise e)) /\ proj i (log c) = [].
Proof.
  intros Hr Hrun Hsig.
  assert (Hst : process_signal_prog blk sig = PRet (Raise e)).
  { apply peq_ret_inv. rewrite process_signal_prog_split. unfold resolved_then_try.
    now rewrite Hr. }
  destruct (pool_run_thread (fun _ p h => p = PRet (Raise e) /\ h = []) ltac:(intros p0 q k h g [Hc _]; discriminate Hc)
              sched _ _ i (PRet (Raise e)) (PRet (Raise e)) Hrun)
    as (p & Hp & -> & Hnil).
  - rewrite <- Hst. exact (start_thread blk sigs i sig Hsig).
  - auto.
  - auto.
Qed.
End Concurrent.
