(* ===== verification/Scenarios.v ===== *)
(** Concrete runs of the block: the configuration and signals of the
    spec's tests (section 8), the collaborators they use (the
    [literal_resolver] evaluator, recording and failing backends, a host
    that delivers and one whose router fails, a backend shared by two
    concurrent invocations that refuses a second send), and for each
    theorem with hypotheses a closed instance that applies it there,
    every hypothesis discharged by computation. *)

From Stdlib Require Import String List ZArith.
From S2P Require Import Prelude PyValue PyStmt NioProperties NioBlock Fluentmail MailGun Replay Connection Contract Outputs Runs Resumption Pool ProgEquiv.
Import ListNotations.
Local Open Scope string_scope.

(** ** Fixtures *)

(** The configuration of spec section 8, with the two recipient
    templates of its ordering test. *)
Definition cfg0 : MailGun :=
  mk_MailGun (mk_MailgunCreds "mg.example.com" "key-123")
    (mk_Emails "<no-reply@x.com>" [mk_Recipient "{{ $a }}"; mk_Recipient "{{ $b }}"] [] [])
    (mk_Message "S" "T" "<b>T</b>") EnrichProperties_default.

Definition sig0 : signal :=
  mk_signal [("a", PyStr "x@x.com"); ("b", PyStr "y@x.com")].

(** What [cfg0] resolves to against [sig0]. *)
Definition r0 : Resolved :=
  mk_Resolved (PyStr "mg.example.com") (PyStr "key-123") (PyStr "T") (PyStr "<b>T</b>")
    (PyStr "S") (PyStr "<no-reply@x.com>") [PyStr "x@x.com"; PyStr "y@x.com"] [] [].

(** A CC template naming an attribute the signal does not have. *)
Definition cfg_missing : MailGun :=
  mk_MailGun (creds cfg0)
    (mk_Emails "<no-reply@x.com>" [mk_Recipient "{{ $a }}"] [mk_Recipient "{{ $cc }}"] [])
    (message cfg0) EnrichProperties_default.

Definition auth_failed : exn := exception "AuthError" "auth failed".

Definition bare_error : exn := mk_exn "RuntimeError" true [].

Definition interrupt : exn := mk_exn "KeyboardInterrupt" false [].

Definition router_down : exn := exception "ConnectionError" "router down".

(** A host that delivers every signal. *)
#[export] Instance delivering_host : Host trace := {| notify_signals _ _ := None |}.

(** A host whose router fails on success signals only. *)
Definition failing_ok_host : Host trace :=
  {| notify_signals s _ :=
       match sig_get "error" s with
       | Some (PyInt 0) => Some router_down
       | _ => None
       end |}.

(** A backend whose [__exit__] raises [e] after a clean body. *)
Definition exit_failing_backend (e : exn) : Backend trace :=
  {| backend_new _ _ _ := None;
     backend_enter _ := None;
     backend_send _ _ := None;
     backend_exit _ _ := Raise e |}.

(** A backend whose constructor raises [e]. *)
Definition new_failing_backend (e : exn) : Backend trace :=
  {| backend_new _ _ _ := Some e;
     backend_enter _ := None;
     backend_send _ _ := None;
     backend_exit _ _ := Normal false |}.

(** A backend whose [send] raises [e] and whose [__exit__] suppresses. *)
Definition suppressing_backend (e : exn) : Backend trace :=
  {| backend_new _ _ _ := None;
     backend_enter _ := None;
     backend_send _ _ := Some e;
     backend_exit _ _ := Normal true |}.

(** The recording backend honours the backend contract. *)
#[export] Instance accepting_contract : @BackendContract accepting_backend.
Proof. constructor; simpl; intros; discriminate. Qed.

(** The value of a recipient's template against [sig0]. *)
Definition recip0 (rc : Recipient) : pyval :=
  match literal_eval (recip rc) sig0 with Normal v => v | Raise _ => PyNone end.

(** [cfg0] with the mixin merging the result into the incoming signal. *)
Definition cfg_merge : MailGun :=
  mk_MailGun (creds cfg0) (emails cfg0) (message cfg0) (mk_EnrichProperties false "").

(** [sig0] with one more attribute that no template reads. *)
Definition sig0_extra : signal :=
  mk_signal [("a", PyStr "x@x.com"); ("b", PyStr "y@x.com"); ("c", PyInt 7)].

(** A second inbound signal, for concurrent invocations. *)
Definition sig1 : signal :=
  mk_signal [("a", PyStr "z@x.com"); ("b", PyStr "w@x.com")].

Definition rate_limited : exn := exception "RateLimitError" "one send at a time".

(** A backend shared by concurrent invocations that refuses a send once
    any send is in the history: its answers couple the invocations. *)
Definition once_backend : Backend trace :=
  {| backend_new _ _ _ := None;
     backend_enter _ := None;
     backend_send _ h := if existsb is_send h then Some rate_limited else None;
     backend_exit _ _ := Normal false |}.

(** Two invocations, stepped alternately. *)
Definition alternate : list tid := [0; 1; 0; 1; 0; 1; 0; 1; 0; 1].

(** The pool after a schedule (the empty pool if it cannot run). *)
Definition pool_after `{Backend trace} `{Host trace} (sched : list tid) (blk : MailGun)
           (sigs : list signal) : pool :=
  match pool_run sched (start blk sigs) with Some c => c | None => mk_pool [] [] end.

(** ** Witnesses *)

Lemma process_signal_success_witness :
  process_signal cfg0 sig0 [] =
  (Normal tt,
   [EvBackendNew (r_api_domain r0) (r_api_key r0) None; EvEnter None;
          EvSend (message_of r0) None; EvExit None (Normal false);
          EvNotify (get_output_signal (enrich cfg0) success_data sig0) None]).
Proof.
  apply (process_signal_success cfg0 sig0 r0 [] false);
    [vm_compute; reflexivity | intros; reflexivity ..].
Defined.

Lemma process_signal_send_error_witness :
  @process_signal _ (failing_backend auth_failed) _ cfg0 sig0 [] =
  (Normal tt,
   [EvBackendNew (r_api_domain r0) (r_api_key r0) None; EvEnter None;
          EvSend (message_of r0) (Some auth_failed); EvExit (Some auth_failed) (Normal false);
          EvNotify (get_output_signal (enrich cfg0) (error_data (PyStr "auth failed")) sig0)
                   None]).
Proof.
  apply (@process_signal_send_error _ (failing_backend auth_failed) _ cfg0 sig0 r0 []
           auth_failed (PyStr "auth failed") []);
    [vm_compute; reflexivity | intros; reflexivity ..].
Defined.

Lemma process_signal_resolution_escapes_witness :
  process_signal cfg_missing sig0 [] = (Raise (exception "AttributeError" "cc"), []).
Proof.
  apply (process_signal_resolution_escapes cfg_missing sig0 []).
  vm_compute. reflexivity.
Defined.

Lemma process_signal_one_result_witness :
  exists evs o, process_signal cfg0 sig0 [] = (o, evs) /\
    ((o = Normal tt /\ countb is_notify evs = 1) \/
     (countb is_notify evs = 0 /\
      exists e, o = Raise e /\ (exc_is_exception e = false \/ e = IndexError_tuple))).
Proof.
  apply (process_signal_one_result cfg0 sig0 r0 []);
    [vm_compute; reflexivity | intros; reflexivity].
Defined.

Lemma process_signal_refines_witness :
  exists evs ev p, process_signal cfg0 sig0 [] = (Normal tt, evs) /\
    observe (enrich cfg0) evs = [Some ev] /\ contract_step Pending ev p /\
    (p = Sent <-> delivered evs).
Proof.
  apply (process_signal_refines cfg0 sig0 r0 []);
    [vm_compute; reflexivity | intros; reflexivity].
Defined.

Lemma process_signal_no_args_escapes_witness :
  @process_signal _ (failing_backend bare_error) _ cfg0 sig0 [] =
  (Raise IndexError_tuple,
   [EvBackendNew (r_api_domain r0) (r_api_key r0) None; EvEnter None;
          EvSend (message_of r0) (Some bare_error); EvExit (Some bare_error) (Normal false)]).
Proof.
  apply (@process_signal_no_args_escapes _ (failing_backend bare_error) _ cfg0 sig0 r0 []
           bare_error);
    [vm_compute; reflexivity | intros; reflexivity ..].
Defined.

Lemma process_signal_double_notify_witness :
  @process_signal _ _ failing_ok_host cfg0 sig0 [] =
  (Normal tt,
   [EvBackendNew (r_api_domain r0) (r_api_key r0) None; EvEnter None;
          EvSend (message_of r0) None; EvExit None (Normal false);
          EvNotify (get_output_signal (enrich cfg0) success_data sig0) (Some router_down);
          EvNotify (get_output_signal (enrich cfg0) (error_data (PyStr "router down")) sig0)
                   None]).
Proof.
  apply (@process_signal_double_notify _ _ failing_ok_host cfg0 sig0 r0 [] false
           router_down (PyStr "router down") []);
    [vm_compute; reflexivity | intros; reflexivity ..].
Defined.

Lemma resolve_recipients_in_order_witness :
  resolve_recipients (to_recipients (emails cfg0)) sig0 [] =
  (Normal (map recip0 (to_recipients (emails cfg0))), []).
Proof.
  apply (resolve_recipients_in_order (to_recipients (emails cfg0)) sig0 recip0 []).
  intros rc Hin. simpl in Hin.
  destruct Hin as [<-|[<-|[]]]; reflexivity.
Defined.

Lemma resolve_recipients_first_error_witness :
  resolve_recipients [mk_Recipient "{{ $a }}"; mk_Recipient "{{ $cc }}";
                      mk_Recipient "{{ $b }}"] sig0 [] =
  (Raise (exception "AttributeError" "cc"), []).
Proof.
  apply (resolve_recipients_first_error [mk_Recipient "{{ $a }}"] (mk_Recipient "{{ $cc }}")
           [mk_Recipient "{{ $b }}"] sig0 recip0 (exception "AttributeError" "cc") []).
  - intros rc Hin. simpl in Hin. destruct Hin as [<-|[]]. reflexivity.
  - reflexivity.
Defined.

Lemma process_signal_twice_sends_twice_witness :
  exists evs, (let* _ := process_signal cfg0 sig0 in process_signal cfg0 sig0) [] =
              (Normal tt, evs) /\
              countb is_send evs = 2 /\ countb is_notify evs = 2.
Proof.
  apply (process_signal_twice_sends_twice cfg0 sig0 r0 [] false);
    [vm_compute; reflexivity | intros; reflexivity ..].
Defined.

Lemma process_signal_suppressed_reports_success_witness :
  @process_signal _ (suppressing_backend auth_failed) _ cfg0 sig0 [] =
  (Normal tt,
   [EvBackendNew (r_api_domain r0) (r_api_key r0) None; EvEnter None;
          EvSend (message_of r0) (Some auth_failed); EvExit (Some auth_failed) (Normal true);
          EvNotify (get_output_signal (enrich cfg0) success_data sig0) None]).
Proof.
  apply (@process_signal_suppressed_reports_success _ (suppressing_backend auth_failed) _
           cfg0 sig0 r0 [] auth_failed);
    [vm_compute; reflexivity | intros; reflexivity ..].
Defined.

Lemma process_signal_base_exception_escapes_witness :
  @process_signal _ (failing_backend interrupt) _ cfg0 sig0 [] =
  (Raise interrupt,
   [EvBackendNew (r_api_domain r0) (r_api_key r0) None; EvEnter None;
          EvSend (message_of r0) (Some interrupt); EvExit (Some interrupt) (Normal false)]).
Proof.
  apply (@process_signal_base_exception_escapes _ (failing_backend interrupt) _
           cfg0 sig0 r0 [] interrupt);
    [vm_compute; reflexivity | intros; reflexivity ..].
Defined.

(** The successful path of the [try] statement on the spec's test. *)
Definition sent_path : trace :=
  [EvBackendNew (r_api_domain r0) (r_api_key r0) None; EvEnter None;
   EvSend (message_of r0) None; EvExit None (Normal false);
   EvNotify (get_output_signal (enrich cfg0) success_data sig0) None].

Lemma try_path_realised_witness :
  @send_and_report (replay_backend sent_path) (replay_host sent_path) cfg0 sig0 r0 [] =
  (Normal tt, sent_path).
Proof.
  apply (try_path_realised cfg0 sig0 r0 sent_path (Normal tt) []).
  apply tp_body. apply (bp_sent (enrich cfg0) sig0 r0 false None).
Defined.

Lemma process_signal_keeps_incoming_witness :
  exists evs o, process_signal cfg_merge sig0 [] = (o, evs) /\
    forall s rn k, In (EvNotify s rn) evs ->
      k <> "error" -> k <> "message" -> k <> enrich_field (enrich cfg_merge) ->
      sig_get k s = sig_get k sig0.
Proof.
  apply (process_signal_keeps_incoming cfg_merge sig0 []). reflexivity.
Defined.

Lemma process_signal_resolved_equiv_witness :
  process_signal cfg0 sig0 [] = process_signal cfg0 sig0_extra [].
Proof.
  apply (process_signal_resolved_equiv cfg0 sig0 sig0_extra []);
    [reflexivity | vm_compute; reflexivity].
Defined.

Lemma process_signal_exit_error_after_send_witness :
  @process_signal _ (exit_failing_backend auth_failed) _ cfg0 sig0 [] =
  (Normal tt,
   [EvBackendNew (r_api_domain r0) (r_api_key r0) None; EvEnter None;
    EvSend (message_of r0) None; EvExit None (Raise auth_failed);
    EvNotify (get_output_signal (enrich cfg0) (error_data (PyStr "auth failed")) sig0) None]).
Proof.
  apply (@process_signal_exit_error_after_send _ (exit_failing_backend auth_failed) _
           cfg0 sig0 r0 [] auth_failed (PyStr "auth failed") []);
    [vm_compute; reflexivity | intros; reflexivity ..].
Defined.

Lemma process_signal_backend_new_error_witness :
  @process_signal _ (new_failing_backend auth_failed) _ cfg0 sig0 [] =
  (Normal tt,
   [EvBackendNew (r_api_domain r0) (r_api_key r0) (Some auth_failed);
    EvNotify (get_output_signal (enrich cfg0) (error_data (PyStr "auth failed")) sig0) None]).
Proof.
  apply (@process_signal_backend_new_error _ (new_failing_backend auth_failed) _
           cfg0 sig0 r0 [] auth_failed (PyStr "auth failed") []);
    [vm_compute; reflexivity | intros; reflexivity ..].
Defined.

Lemma pool_run_bounded_witness : length alternate <= 6 * length [sig0; sig1].
Proof.
  apply (pool_run_bounded cfg0 [sig0; sig1] alternate (pool_after alternate cfg0 [sig0; sig1])).
  vm_compute. reflexivity.
Defined.

Lemma pool_thread_releases_witness :
  exists cn, conn_steps Unopened (proj 1 (log (@pool_after once_backend delivering_host alternate cfg0 [sig0; sig1]))) cn /\
    cn <> Opened /\
    countb is_send (proj 1 (log (@pool_after once_backend delivering_host alternate cfg0 [sig0; sig1]))) <= 1 /\
    countb is_send (proj 1 (log (@pool_after once_backend delivering_host alternate cfg0 [sig0; sig1]))) =
    countb is_exit (proj 1 (log (@pool_after once_backend delivering_host alternate cfg0 [sig0; sig1]))).
Proof.
  apply (@pool_thread_releases _ once_backend delivering_host cfg0 [sig0; sig1] alternate
           (@pool_after once_backend delivering_host alternate cfg0 [sig0; sig1]) 1 sig1 (Normal tt));
    vm_compute; reflexivity.
Defined.

(** [sig0] with the attribute the CC template of [cfg_missing] reads. *)
Definition sig0_cc : signal :=
  mk_signal [("a", PyStr "x@x.com"); ("b", PyStr "y@x.com"); ("cc", PyStr "c@x.com")].

(** Under [cfg_missing], the invocation on [sig0_cc] runs to its end
    while the one on [sig0] fails to resolve and never calls. *)
Lemma pool_resolution_error_silent_witness :
  nth_error (threads (pool_after [0; 0; 0; 0; 0] cfg_missing [sig0_cc; sig0])) 1 =
    Some (PRet (Raise (exception "AttributeError" "cc"))) /\
  proj 1 (log (pool_after [0; 0; 0; 0; 0] cfg_missing [sig0_cc; sig0])) = [].
Proof.
  apply (pool_resolution_error_silent cfg_missing [sig0_cc; sig0] [0; 0; 0; 0; 0]
           (pool_after [0; 0; 0; 0; 0] cfg_missing [sig0_cc; sig0]) 1 sig0);
    vm_compute; reflexivity.
Defined.

(** [cfg0] with the default recipients of lines 15-18: none. *)
Definition cfg_default_emails : MailGun :=
  mk_MailGun (creds cfg0) Emails_default (message cfg0) EnrichProperties_default.

(** What [cfg_default_emails] resolves to against [sig0]. *)
Definition r_default_emails : Resolved :=
  mk_Resolved (PyStr "mg.example.com") (PyStr "key-123") (PyStr "T") (PyStr "<b>T</b>")
    (PyStr "S") (PyStr "<no-reply@mydomain.com>") [] [] [].

Lemma process_signal_sends_without_recipients_witness :
  fm_to (message_of r_default_emails) = [] /\
  exists evs o, process_signal cfg_default_emails sig0 [] = (o, ([] ++ evs)%list) /\
    In (EvSend (message_of r_default_emails) None) evs.
Proof.
  apply (@process_signal_sends_without_recipients _ accepting_backend _ cfg_default_emails sig0
           r_default_emails []);
    [vm_compute; reflexivity | reflexivity | intros; reflexivity ..].
Defined.

(** What [cfg0] resolves to against [sig1]. *)
Definition r1 : Resolved :=
  mk_Resolved (PyStr "mg.example.com") (PyStr "key-123") (PyStr "T") (PyStr "<b>T</b>")
    (PyStr "S") (PyStr "<no-reply@x.com>") [PyStr "z@x.com"; PyStr "w@x.com"] [] [].

(** The invocation whose send [once_backend] refuses still notifies one
    result. *)
Lemma pool_thread_one_result_witness :
  ((Normal tt : outcome exn unit) = Normal tt /\
   countb is_notify (proj 1 (log (@pool_after once_backend delivering_host alternate cfg0 [sig0; sig1]))) = 1) \/
  (countb is_notify (proj 1 (log (@pool_after once_backend delivering_host alternate cfg0 [sig0; sig1]))) = 0 /\
   exists e, (Normal tt : outcome exn unit) = Raise e /\
     (exc_is_exception e = false \/ e = IndexError_tuple)).
Proof.
  apply (@pool_thread_one_result _ once_backend delivering_host cfg0 [sig0; sig1] alternate
           (@pool_after once_backend delivering_host alternate cfg0 [sig0; sig1]) 1 sig1 (Normal tt) r1);
    [intros; reflexivity | vm_compute; reflexivity ..].
Defined.

(** [once_backend] raises only a reportable exception and never
    suppresses. *)
Lemma once_backend_contract : @BackendContract once_backend.
Proof.
  constructor; simpl; intros; try discriminate.
  destruct (existsb is_send h); [|discriminate].
  injection H as <-. split; [reflexivity | discriminate].
Qed.

Lemma pool_thread_refines_witness :
  (Normal tt : outcome exn unit) = Normal tt /\
  exists ev p,
    observe (enrich cfg0) (proj 1 (log (@pool_after once_backend delivering_host alternate cfg0 [sig0; sig1]))) =
      [Some ev] /\
    contract_step Pending ev p /\
    (p = Sent <-> delivered (proj 1 (log (@pool_after once_backend delivering_host alternate cfg0 [sig0; sig1])))).
Proof.
  apply (@pool_thread_refines _ once_backend delivering_host once_backend_contract cfg0 [sig0; sig1]
           alternate (@pool_after once_backend delivering_host alternate cfg0 [sig0; sig1]) 1 sig1
           (Normal tt) r1);
    [intros; reflexivity | vm_compute; reflexivity ..].
Defined.

Lemma pool_thread_bounded_witness :
  countb is_send (proj 1 (log (@pool_after once_backend delivering_host [0; 1; 1; 0] cfg0 [sig0; sig1]))) <= 1 /\
  countb is_notify (proj 1 (log (@pool_after once_backend delivering_host [0; 1; 1; 0] cfg0 [sig0; sig1]))) <= 2 /\
  length (proj 1 (log (@pool_after once_backend delivering_host [0; 1; 1; 0] cfg0 [sig0; sig1]))) <= 6.
Proof.
  apply (@pool_thread_bounded _ once_backend delivering_host cfg0 [sig0; sig1] [0; 1; 1; 0]
           (@pool_after once_backend delivering_host [0; 1; 1; 0] cfg0 [sig0; sig1]) 1 sig1);
    vm_compute; reflexivity.
Defined.
